(** * no-array-for-each: a shallow embedding of [rules/no-array-for-each.js]

    The rule reports every [Array#forEach] call and, when the call site
    passes the fixability analysis, attaches a patch rewriting it into a
    [for ... of] loop.  The embedding follows the JavaScript source function
    by function.  Property accesses that throw a [TypeError] on [undefined]
    are run in the [option] monad: [None] is a thrown exception. *)

From Stdlib Require Import String Ascii List Arith Bool Lia.
From stdpp Require Import base option list strings gmap.

Local Open Scope string_scope.
Local Open Scope list_scope.
Local Set Warnings "-register-all".

(** ** Tokens *)

Inductive TokenType := Punctuator | Keyword | IdentifierToken | OtherToken.

Record Token := mkToken {
  tokenType : TokenType;
  value : string;
  tokenRange : nat * nat
}.

Definition isPunctuatorTokenWithValue (v : string) (token : Token) : bool :=
  match tokenType token with
  | Punctuator => String.eqb (value token) v
  | _ => false
  end.

(** The token predicates of [eslint-utils]. *)
Definition isArrowToken := isPunctuatorTokenWithValue "=>".
Definition isCommaToken := isPunctuatorTokenWithValue ",".
Definition isSemicolonToken := isPunctuatorTokenWithValue ";".
Definition isClosingParenToken := isPunctuatorTokenWithValue ")".

(** ** Syntax trees

    A node kind carries the scalar attributes the rule reads ([name],
    [optional], [computed], [async], [generator]); every other kind is
    [Plain] and has none of them.  Child nodes hang under the property name
    of the parent that holds them, in document order; an array-valued
    property ([arguments], [params], a block's [body]) contributes one
    entry per element. *)

Inductive NodeType :=
| Identifier (name : string)
| MemberExpression (computed optional : bool)
| CallExpression (optional : bool)
| FunctionExpression (async generator : bool)
| FunctionDeclaration (async generator : bool)
| ArrowFunctionExpression (async : bool)
| Plain (typeName : string).

Inductive Syntax := mkSyntax {
  id : nat;
  type : NodeType;
  range : nat * nat;
  lines : nat * nat;
  children : list (string * Syntax)
}.

(** A node as a rule sees it: the syntax together with its [parent] link.
    Object identity ([===]) is identity of [id]. *)
Inductive Node := mkNode {
  syntax : Syntax;
  parent : option Node
}.

Definition typeName (n : Node) : string :=
  match type (syntax n) with
  | Identifier _ => "Identifier"
  | MemberExpression _ _ => "MemberExpression"
  | CallExpression _ => "CallExpression"
  | FunctionExpression _ _ => "FunctionExpression"
  | FunctionDeclaration _ _ => "FunctionDeclaration"
  | ArrowFunctionExpression _ => "ArrowFunctionExpression"
  | Plain t => t
  end.

Definition name (n : Node) : option string :=
  match type (syntax n) with Identifier s => Some s | _ => None end.

Definition optional (n : Node) : bool :=
  match type (syntax n) with
  | MemberExpression _ o => o
  | CallExpression o => o
  | _ => false
  end.

Definition computed (n : Node) : bool :=
  match type (syntax n) with MemberExpression c _ => c | _ => false end.

Definition async (n : Node) : bool :=
  match type (syntax n) with
  | FunctionExpression a _ | FunctionDeclaration a _ => a
  | ArrowFunctionExpression a => a
  | _ => false
  end.

Definition generator (n : Node) : bool :=
  match type (syntax n) with
  | FunctionExpression _ g | FunctionDeclaration _ g => g
  | _ => false
  end.

Definition nodeId (n : Node) : nat := id (syntax n).
Definition nodeRange (n : Node) : nat * nat := range (syntax n).

(** [a === b] on nodes. *)
Definition sameNode (a b : Node) : bool := Nat.eqb (nodeId a) (nodeId b).

(** [node.key] for a node-valued property, [node.key] for an array-valued
    one. *)
Definition child (n : Node) (c : string * Syntax) : Node :=
  mkNode c.2 (Some n).

Definition field (key : string) (n : Node) : option Node :=
  child n <$> List.find (fun c => String.eqb c.1 key) (children (syntax n)).

Definition fields (key : string) (n : Node) : list Node :=
  List.map (child n) (List.filter (fun c => String.eqb c.1 key) (children (syntax n))).

Definition arguments := fields "arguments".
Definition params := fields "params".

(** [a === b] where [a] may be [null] or [undefined]. *)
Definition isNode (a : option Node) (b : Node) : bool :=
  match a with Some a' => sameNode a' b | None => false end.

(** A value interpolated into a template literal. *)
Definition templateText (s : option string) : string :=
  match s with Some s' => s' | None => "undefined" end.

(** ** Things with a source range: nodes and tokens *)

Class Ranged (A : Type) := rangeOf : A -> nat * nat.
#[global] Instance Node_ranged : Ranged Node := nodeRange.
#[global] Instance Token_ranged : Ranged Token := tokenRange.

(** ** Text edits, as the fixer object builds them *)

Record Edit := mkEdit {
  editRange : nat * nat;
  editText : string
}.

Module fixer.
Definition replaceTextRange (r : nat * nat) (t : string) : Edit := mkEdit r t.
Definition insertTextBeforeRange (r : nat * nat) (t : string) : Edit :=
  mkEdit (r.1, r.1) t.
Definition insertTextAfterRange (r : nat * nat) (t : string) : Edit :=
  mkEdit (r.2, r.2) t.
Definition replaceText `{Ranged A} (x : A) (t : string) : Edit :=
  replaceTextRange (rangeOf x) t.
Definition insertTextBefore `{Ranged A} (x : A) (t : string) : Edit :=
  insertTextBeforeRange (rangeOf x) t.
Definition insertTextAfter `{Ranged A} (x : A) (t : string) : Edit :=
  insertTextAfterRange (rangeOf x) t.
Definition remove `{Ranged A} (x : A) : Edit := replaceTextRange (rangeOf x) "".
End fixer.

(** ** Source code: the text and its tokens *)

(** A character of [text] is one UTF-16 code unit of the source, so that
    ranges index characters; the embedding covers the sources whose code
    units are all below 256. *)
Record SourceCode := mkSourceCode {
  text : string;
  tokens : list Token
}.

Definition getText (sourceCode : SourceCode) (n : Node) : string :=
  substring (nodeRange n).1 ((nodeRange n).2 - (nodeRange n).1) (text sourceCode).

Definition tokensIn (sourceCode : SourceCode) (r : nat * nat) : list Token :=
  List.filter (fun t => Nat.leb r.1 (tokenRange t).1 && Nat.leb (tokenRange t).2 r.2)
    (tokens sourceCode).

Definition getFirstToken (sourceCode : SourceCode) (n : Node) : option Token :=
  head (tokensIn sourceCode (nodeRange n)).

Definition getLastToken (sourceCode : SourceCode) (n : Node) : option Token :=
  last (tokensIn sourceCode (nodeRange n)).

Definition getLastTokens (sourceCode : SourceCode) (n : Node) (count : nat) : list Token :=
  let inside := tokensIn sourceCode (nodeRange n) in
  drop (length inside - count) inside.

Definition getTokenBefore `{Ranged A} (sourceCode : SourceCode) (x : A)
    (filter : Token -> bool) : option Token :=
  last (List.filter (fun t => Nat.leb (tokenRange t).2 (rangeOf x).1 && filter t)
          (tokens sourceCode)).

Definition getTokenAfter `{Ranged A} (sourceCode : SourceCode) (x : A) : option Token :=
  head (List.filter (fun t => Nat.leb (rangeOf x).2 (tokenRange t).1) (tokens sourceCode)).

(** ** Scopes and variables, as the scope manager reports them *)

Inductive Scope := mkScope {
  scopeId : nat;
  upper : option Scope
}.

(** [a === b] on scopes. *)
Definition sameScope (a b : Scope) : bool := Nat.eqb (scopeId a) (scopeId b).

(** A definition site: [type] is the scope manager's tag (the rule only
    tests it against the parameter tag), [name] the defining identifier. *)
Record VarDefinition := mkDefinition {
  defType : string;
  defName : Node
}.

Record Reference := mkReference {
  identifier : Node
}.

Record ScopeVariable := mkVariable {
  varScope : Scope;
  defs : list VarDefinition;
  references : list Reference
}.

Record Context := mkContext {
  getSourceCode : SourceCode;
  getDeclaredVariables : Node -> list ScopeVariable;
  (** [context.getScope()] while the traversal is at the given node *)
  getScope : Node -> Scope
}.

(** ** Imported modules

    The helpers the rule imports from [eslint-utils], [indent-string] and
    the plugin's own [utils], [fix] and [selectors] directories, taken as
    given.  [indentString s] is [indentString(s, 1, {indent: '\t'})], the
    only way the rule calls it. *)

Record Imports := mkImports {
  isParenthesized : Node -> SourceCode -> bool;
  findVariable : Scope -> Node -> option ScopeVariable;
  indentString : string -> string;
  referenceIdentifierSelector : Node -> bool;
  needsSemicolon : option Token -> SourceCode -> string -> bool;
  shouldAddParenthesesToExpressionStatementExpression : Node -> bool;
  getParentheses : Node -> SourceCode -> list Token;
  isFunctionSelfUsedInside : Node -> Scope -> bool;
  isNodeMatches : Node -> list string -> bool;
  getIndentString : Node -> SourceCode -> string;
  fixSpaceAroundKeyword : Node -> SourceCode -> list Edit
}.

(** Modelled from the spec: [utils/assert-token.js] is not part of the
    sources.  It is the defensive check that the token about to be removed
    really is the expected keyword; a mismatch is an internal error. *)
Definition assertToken (token : Token) (expected : string) : option unit :=
  if String.eqb (value token) expected then Some tt else None.

(** Modelled from the spec: [fix/extend-fix-range.js] is not part of the
    sources.  It widens the range the patch declares to the given range,
    by two empty insertions at its ends. *)
Definition extendFixRange (r : nat * nat) : list Edit :=
  [fixer.insertTextBeforeRange r ""; fixer.insertTextAfterRange r ""].

(** Modelled from the spec: [selectors/method-call-selector.js] is not part
    of the sources.  With [includeOptionalCall] and [includeOptionalMember]
    it matches any call whose callee is a member access with the method
    name [forEach], in the plain and in both null-safe forms. *)
Definition arrayForEachCallSelector (n : Node) : bool :=
  String.eqb (typeName n) "CallExpression"
  && match field "callee" n with
     | Some callee =>
         String.eqb (typeName callee) "MemberExpression"
         && negb (computed callee)
         && match field "object" callee, field "property" callee with
            | Some _, Some property =>
                match name property with
                | Some m => String.eqb m "forEach"
                | None => false
                end
            | _, _ => false
            end
     | None => false
     end.

(** The [:function] class of the selector language. *)
Definition isFunction (n : Node) : bool :=
  String.eqb (typeName n) "FunctionDeclaration"
  || String.eqb (typeName n) "FunctionExpression"
  || String.eqb (typeName n) "ArrowFunctionExpression".

(** ** Array methods over predicates that may throw *)

Fixpoint someM {A} (p : A -> option bool) (l : list A) : option bool :=
  match l with
  | [] => Some false
  | x :: rest => b ← p x; if b : bool then Some true else someM p rest
  end.

Fixpoint filterM {A} (p : A -> option bool) (l : list A) : option (list A) :=
  match l with
  | [] => Some []
  | x :: rest =>
      b ← p x; kept ← filterM p rest;
      Some (if b : bool then x :: kept else kept)
  end.

Fixpoint concatM {A B} (f : A -> option (list B)) (l : list A) : option (list B) :=
  match l with
  | [] => Some []
  | x :: rest => ys ← f x; zs ← concatM f rest; Some (ys ++ zs)
  end.

Definition optionStringEqb (a b : option string) : bool :=
  match a, b with
  | Some x, Some y => String.eqb x y
  | None, None => true
  | _, _ => false
  end.

(** The characters [\s] matches among the code units below 256: tab, line
    feed, vertical tab, form feed, carriage return, space and the
    no-break space. *)
Definition isWhitespace (c : ascii) : bool :=
  match nat_of_ascii c with
  | 9 | 10 | 11 | 12 | 13 | 32 | 160 => true
  | _ => false
  end.

(** [text.replace(/\s+$/, '')] *)
Fixpoint trimTrailingWhitespace (s : string) : string :=
  match s with
  | EmptyString => EmptyString
  | String c rest =>
      match trimTrailingWhitespace rest with
      | EmptyString => if isWhitespace c then EmptyString else String c EmptyString
      | trimmed => String c trimmed
      end
  end.

(** ** The rule *)

Definition MESSAGE_ID : string := "no-array-for-each".

Definition continueAbleNodeTypes : list string :=
  ["WhileStatement"; "DoWhileStatement"; "ForStatement"; "ForOfStatement";
   "ForInStatement"].

Definition has (set : list string) (s : string) : bool :=
  existsb (String.eqb s) set.

Fixpoint isReturnStatementInContinueAbleNodes (node callbackFunction : Node) : bool :=
  if sameNode node callbackFunction then false
  else if has continueAbleNodeTypes (typeName node) then true
  else match parent node with
       | Some p => isReturnStatementInContinueAbleNodes p callbackFunction
       | None => false
       end.

Definition shouldSwitchReturnStatementToBlockStatement (returnStatement : Node)
    : option bool :=
  parent ← parent returnStatement;
  if String.eqb (typeName parent) "IfStatement" then
    Some (isNode (field "consequent" parent) returnStatement
          || isNode (field "alternate" parent) returnStatement)
  else if String.eqb (typeName parent) "WithStatement" then
    Some (isNode (field "body" parent) returnStatement)
  else Some false.

Fixpoint isChildScope (child parent : Scope) : bool :=
  if sameScope child parent then true
  else match upper child with
       | Some scope => isChildScope scope parent
       | None => false
       end.

Record FunctionInfo := mkFunctionInfo {
  returnStatements : list Node;
  scope : Scope
}.

Definition isFunctionParameterVariableReassigned (callbackFunction : Node)
    (context : Context) : option bool :=
  variables ← filterM
    (fun variable => d ← head (defs variable);
                     Some (String.eqb (defType d) "Parameter"))
    (getDeclaredVariables context callbackFunction);
  someM (fun variable =>
    someM (fun reference =>
      let node := identifier reference in
      parent ← parent node;
      Some (String.eqb (typeName parent) "UpdateExpression"
            || (String.eqb (typeName parent) "AssignmentExpression"
                && isNode (field "left" parent) node)))
      (references variable))
    variables.

Definition LF : string := String (ascii_of_nat 10) EmptyString.

Definition nonEmpty (s : string) : bool :=
  match s with EmptyString => false | _ => true end.

Section Rule.
Context (imports : Imports).

Section FixFunction.
(** The variables the generator returned by [getFixFunction] closes
    over; [body] is [callback.body]. *)
Variables (callExpression : Node) (context : Context).
Variables (callback array body : Node) (returnStatements' : list Node).
Variables (isOptionalChaining isBlockStatement : bool).
Variable (indentedString : string).

Definition getForOfLoopHeadText : option string :=
  let sourceCode := getSourceCode context in
  let texts := List.map (getText sourceCode) (params callback) in
  let elementText := templateText (texts !! 0) in
  let indexText := templateText (texts !! 1) in
  let useEntries := Nat.eqb (length (params callback)) 2 in
  let text := "for (" in
  reassigned ← isFunctionParameterVariableReassigned callback context;
  let text := text +:+ (if reassigned : bool then "let" else "const") in
  let text := text +:+ " " in
  let text := text +:+ (if useEntries
                        then "[" +:+ indexText +:+ ", " +:+ elementText +:+ "]"
                        else elementText) in
  let text := text +:+ " of " in
  let arrayText := getText sourceCode array in
  let arrayText := if isParenthesized imports array sourceCode
                   then "(" +:+ arrayText +:+ ")" else arrayText in
  let text := text +:+ arrayText in
  let text := if useEntries then text +:+ ".entries()" else text in
  let text := text +:+ ") " in
  Some text.

Definition getForOfLoopHeadRange : option (nat * nat) :=
  let sourceCode := getSourceCode context in
  let start := (nodeRange callExpression).1 in
  end_ ← (if String.eqb (typeName body) "BlockStatement"
          then Some (nodeRange body).1
          else arrowToken ← getTokenBefore sourceCode body isArrowToken;
               Some (tokenRange arrowToken).2);
  Some (start, end_).

Definition replaceReturnStatement (returnStatement : Node) : option (list Edit) :=
  let sourceCode := getSourceCode context in
  returnToken ← getFirstToken sourceCode returnStatement;
  _ ← assertToken returnToken "return";
  match field "argument" returnStatement with
  | None => Some [fixer.replaceText returnToken "continue"]
  | Some argument =>
      let previousToken := getTokenBefore sourceCode returnToken (fun _ => true) in
      let nextToken := getTokenAfter sourceCode returnToken in
      let textBefore := "" in
      let textAfter := "" in
      let shouldAddParentheses :=
        negb (isParenthesized imports argument sourceCode)
        && shouldAddParenthesesToExpressionStatementExpression imports argument in
      let textBefore := if shouldAddParentheses then "(" +:+ textBefore else textBefore in
      let textAfter := if shouldAddParentheses then textAfter +:+ ")" else textAfter in
      insertBraces ← shouldSwitchReturnStatementToBlockStatement returnStatement;
      textBefore ←
        (if insertBraces : bool then Some ("{ " +:+ textBefore)
         else code ← (if shouldAddParentheses then Some "(" else value <$> nextToken);
              Some (if needsSemicolon imports previousToken sourceCode code
                    then ";" +:+ textBefore else textBefore));
      insertBefore ←
        (if nonEmpty textBefore
         then token ← nextToken; Some [fixer.insertTextBefore token textBefore]
         else Some []);
      let insertAfter :=
        if nonEmpty textAfter then [fixer.insertTextAfter argument textAfter] else [] in
      lastToken ← getLastToken sourceCode returnStatement;
      let returnStatementHasSemicolon := isSemicolonToken lastToken in
      Some ([fixer.remove returnToken]
            ++ insertBefore
            ++ insertAfter
            ++ (if returnStatementHasSemicolon then []
                else [fixer.insertTextAfter returnStatement ";"])
            ++ [fixer.insertTextAfter returnStatement " continue;"]
            ++ (if insertBraces : bool then [fixer.insertTextAfter returnStatement " }"]
                else []))
  end.

Definition shouldRemoveExpressionStatementLastToken (token : Token) : bool :=
  if negb (isSemicolonToken token) then false
  else if negb (String.eqb (typeName body) "BlockStatement")
          && negb isOptionalChaining then false
  else true.

Definition wrapInIfStatement : option (list Edit) :=
  let sourceCode := getSourceCode context in
  let isSingleLine :=
    negb isBlockStatement
    || Nat.eqb (lines (syntax body)).1 (lines (syntax body)).2 in
  callee ← field "callee" callExpression;
  object ← field "object" callee;
  let guardOpen :=
    fixer.insertTextBefore callExpression
      ("if (" +:+ templateText (name object) +:+ ") {" +:+ LF) in
  let guardClose :=
    fixer.insertTextAfter callExpression (LF +:+ indentedString +:+ "}") in
  let indentedForOfClosingBracket :=
    if isSingleLine then "}" else indentString imports "}" in
  let isMultilineBlock :=
    String.eqb (typeName body) "BlockStatement" && negb isSingleLine in
  let terminator :=
    if negb (String.eqb (typeName body) "BlockStatement") && isSingleLine
    then [fixer.insertTextAfter body ";"] else [] in
  if negb isMultilineBlock then Some ([guardOpen; guardClose] ++ terminator)
  else
    lastToken ← getLastToken sourceCode body;
    let expressions := fields "body" body in
    Some ([guardOpen; guardClose] ++ terminator
          ++ [fixer.replaceText lastToken indentedForOfClosingBracket]
          ++ List.map (fun expression =>
                         fixer.replaceText expression
                           (indentString imports (getText sourceCode expression)))
               expressions).

Definition removeCallbackParentheses : list Edit :=
  let sourceCode := getSourceCode context in
  let closingParenthesisTokens :=
    List.filter isClosingParenToken (getParentheses imports callback sourceCode) in
  List.map fixer.remove closingParenthesisTokens.

(** The generator function [getFixFunction] returns, run to its end. *)
Definition fixFunction : option (list Edit) :=
  let sourceCode := getSourceCode context in
  headText ← getForOfLoopHeadText;
  let indentedForOfLoopHeadText := indentedString +:+ indentString imports headText in
  let trimmedForOfLoopHeadText :=
    if isBlockStatement then indentedForOfLoopHeadText
    else trimTrailingWhitespace indentedForOfLoopHeadText in
  headRange ← getForOfLoopHeadRange;
  let lastTokens := getLastTokens sourceCode callExpression 2 in
  penultimateToken ← lastTokens !! 0;
  lastToken ← lastTokens !! 1;
  returns ← concatM replaceReturnStatement returnStatements';
  callParent ← parent callExpression;
  statement ← (if isOptionalChaining then parent callParent else Some callParent);
  expressionStatementLastToken ← getLastToken sourceCode statement;
  wrap ← (if isOptionalChaining then wrapInIfStatement else Some []);
  Some ([fixer.replaceTextRange headRange
           (if isOptionalChaining then trimmedForOfLoopHeadText else headText)]
        ++ removeCallbackParentheses
        ++ (if isCommaToken penultimateToken then [fixer.remove penultimateToken] else [])
        ++ [fixer.remove lastToken]
        ++ returns
        ++ (if shouldRemoveExpressionStatementLastToken expressionStatementLastToken
            then [fixer.remove expressionStatementLastToken] else [])
        ++ fixSpaceAroundKeyword imports callParent sourceCode
        ++ wrap
        ++ extendFixRange (nodeRange callParent)).
End FixFunction.

(** A fix is the outcome of running the generator: its edits, or [None]
    when it throws. *)
Definition Fix := option (list Edit).

Definition getFixFunction (callExpression : Node)
    (functionInfo : gmap nat FunctionInfo) (context : Context) : option Fix :=
  let sourceCode := getSourceCode context in
  callback ← head (arguments callExpression);
  callee ← field "callee" callExpression;
  array ← field "object" callee;
  info ← functionInfo !! nodeId callback;
  let isOptionalChaining := optional callee in
  body ← field "body" callback;
  let isBlockStatement := String.eqb (typeName body) "BlockStatement" in
  callParent ← parent callExpression;
  statementParent ← parent callParent;
  let indentedString := getIndentString imports statementParent sourceCode in
  Some (fixFunction callExpression context callback array body
          (returnStatements info) isOptionalChaining isBlockStatement indentedString).

Fixpoint identifiersAreSafe (scope : Scope) (variableName : option string)
    (arrayStart arrayEnd : nat) (allIdentifiers : list Node) : bool :=
  match allIdentifiers with
  | [] => true
  | identifier :: rest =>
      let '(start, end_) := nodeRange identifier in
      if negb (optionStringEqb (name identifier) variableName)
         || Nat.ltb start arrayStart
         || Nat.ltb arrayEnd end_
      then identifiersAreSafe scope variableName arrayStart arrayEnd rest
      else
        match findVariable imports scope identifier with
        | None => false
        | Some variable =>
            if sameScope (varScope variable) scope
               || isChildScope scope (varScope variable)
            then false
            else identifiersAreSafe scope variableName arrayStart arrayEnd rest
        end
  end.

Fixpoint variablesAreSafe (scope : Scope) (array : Node)
    (allIdentifiers : list Node) (variables : list ScopeVariable) : bool :=
  match variables with
  | [] => true
  | variable :: rest =>
      match defs variable with
      | [definition] =>
          if negb (String.eqb (defType definition) "Parameter")
          then variablesAreSafe scope array allIdentifiers rest
          else
            let variableName := name (defName definition) in
            let '(arrayStart, arrayEnd) := nodeRange array in
            if identifiersAreSafe scope variableName arrayStart arrayEnd allIdentifiers
            then variablesAreSafe scope array allIdentifiers rest
            else false
      | _ => false
      end
  end.

Definition isFunctionParametersSafeToFix (callbackFunction : Node)
    (context : Context) (scope : Scope) (array : Node)
    (allIdentifiers : list Node) : bool :=
  let variables := getDeclaredVariables context callbackFunction in
  variablesAreSafe scope array allIdentifiers variables.

Definition isFixable (callExpression : Node) (scope : Scope)
    (functionInfo : gmap nat FunctionInfo) (allIdentifiers : list Node)
    (context : Context) : option bool :=
  let sourceCode := getSourceCode context in
  if optional callExpression
     || isParenthesized imports callExpression sourceCode
     || negb (Nat.eqb (length (arguments callExpression)) 1)
  then Some false
  else
    callParent ← parent callExpression;
    if negb (String.eqb (typeName callParent) "ExpressionStatement")
       && negb (String.eqb (typeName callParent) "ChainExpression")
    then Some false
    else
      callback ← head (arguments callExpression);
      if (negb (String.eqb (typeName callback) "FunctionExpression")
          && negb (String.eqb (typeName callback) "ArrowFunctionExpression"))
         || async callback
         || generator callback
      then Some false
      else
        let parameters := params callback in
        if negb (Nat.eqb (length parameters) 1 || Nat.eqb (length parameters) 2)
           || existsb (fun parameter =>
                         String.eqb (typeName parameter) "RestElement"
                         || bool_decide (is_Some (field "typeAnnotation" parameter)))
                parameters
           || negb (isFunctionParametersSafeToFix callback context scope
                      callExpression allIdentifiers)
        then Some false
        else
          '(mkFunctionInfo returnStatements callbackScope) ← functionInfo !! nodeId callback;
          if existsb (fun returnStatement =>
                        isReturnStatementInContinueAbleNodes returnStatement callback)
               returnStatements
          then Some false
          else if isFunctionSelfUsedInside imports callback callbackScope
          then Some false
          else Some true.
End Rule.

Definition ignoredObjects : list string :=
  ["React.Children"; "Children"; "R"; "pIteration"].

Record CallSite := mkCallSite {
  callNode : Node;
  callScope : Scope
}.

Record Problem := mkProblem {
  problemNode : Node;
  messageId : string;
  problemFix : option Fix
}.

(** The variables [create] closes over. *)
Record State := mkState {
  functionStack : list Node;
  callExpressions : list CallSite;
  allIdentifiers : list Node;
  functionInfo : gmap nat FunctionInfo
}.

Definition initialState : State := mkState [] [] [] ∅.

(** Whether some proper ancestor matches [:function]. *)
Fixpoint hasFunctionAncestor (n : Node) : bool :=
  match parent n with
  | Some p => isFunction p || hasFunctionAncestor p
  | None => false
  end.

(** Visiting the children of a node one after the other. *)
Definition visitChildren (visit : Syntax -> State -> option State)
    : list (string * Syntax) -> State -> option State :=
  fix go cs st :=
    match cs with
    | [] => Some st
    | c :: rest => st ← visit c.2 st; go rest st
    end.

Section Create.
Context (imports : Imports) (context : Context).

(** [':function'] *)
Definition onFunction (node : Node) (st : State) : State :=
  mkState (functionStack st ++ [node]) (callExpressions st) (allIdentifiers st)
    (<[nodeId node := mkFunctionInfo [] (getScope context node)]> (functionInfo st)).

(** [':function:exit'] *)
Definition onFunctionExit (st : State) : State :=
  mkState (removelast (functionStack st)) (callExpressions st) (allIdentifiers st)
    (functionInfo st).

(** [referenceIdentifierSelector()] *)
Definition onReferenceIdentifier (node : Node) (st : State) : State :=
  mkState (functionStack st) (callExpressions st) (allIdentifiers st ++ [node])
    (functionInfo st).

(** [':function ReturnStatement'] *)
Definition onReturnStatement (node : Node) (st : State) : option State :=
  currentFunction ← last (functionStack st);
  info ← functionInfo st !! nodeId currentFunction;
  Some (mkState (functionStack st) (callExpressions st) (allIdentifiers st)
          (<[nodeId currentFunction :=
               mkFunctionInfo (returnStatements info ++ [node]) (scope info)]>
             (functionInfo st))).

(** [arrayForEachCallSelector] *)
Definition onArrayForEachCall (node : Node) (st : State) : option State :=
  callee ← field "callee" node;
  object ← field "object" callee;
  if isNodeMatches imports object ignoredObjects then Some st
  else Some (mkState (functionStack st)
               (callExpressions st ++ [mkCallSite node (getScope context node)])
               (allIdentifiers st) (functionInfo st)).

(** ['Program:exit'] *)
Definition programExit (st : State) : option (list Problem) :=
  mapM (fun callSite =>
          let node := callNode callSite in
          let scope := callScope callSite in
          callee ← field "callee" node;
          property ← field "property" callee;
          fixable ← isFixable imports node scope (functionInfo st)
                      (allIdentifiers st) context;
          patch ← (if fixable : bool
                 then Some <$> getFixFunction imports node (functionInfo st) context
                 else Some None);
          Some (mkProblem property MESSAGE_ID patch))
    (callExpressions st).

(** The listeners that fire when the traversal enters a node, selected as
    the selector language does: by the node and its ancestors. *)
Definition enter (node : Node) (st : State) : option State :=
  let st := if isFunction node then onFunction node st else st in
  let st := if referenceIdentifierSelector imports node
            then onReferenceIdentifier node st else st in
  st ← (if String.eqb (typeName node) "ReturnStatement" && hasFunctionAncestor node
        then onReturnStatement node st else Some st);
  if arrayForEachCallSelector node then onArrayForEachCall node st else Some st.

(** The listeners that fire when the traversal leaves a node. *)
Definition leave (node : Node) (st : State) : State :=
  if isFunction node then onFunctionExit st else st.

(** The traversal of the linter: every node once, in document order,
    entered before and left after its children. *)
Fixpoint traverse (parent : option Node) (s : Syntax) (st : State) {struct s}
    : option State :=
  let node := mkNode s parent in
  st ← enter node st;
  st ← visitChildren (traverse (Some node)) (children s) st;
  Some (leave node st).

(** Linting a file: traverse the program, then run ['Program:exit']. *)
Definition lint (program : Syntax) : option (list Problem) :=
  st ← traverse None program initialState;
  programExit st.
End Create.

(** ** The nodes of a tree, in document order *)

Fixpoint nodesOf (parent : option Node) (s : Syntax) {struct s} : list Node :=
  let node := mkNode s parent in
  node :: List.flat_map (fun c => nodesOf (Some node) c.2) (children s).

Definition nodeById (program : Syntax) (i : nat) : option Node :=
  List.find (fun n => Nat.eqb (nodeId n) i) (nodesOf None program).

(** The nearest enclosing function of a node: the first proper ancestor
    matching [:function]. *)
Fixpoint enclosingFunction (n : Node) : option Node :=
  match parent n with
  | Some p => if isFunction p then Some p else enclosingFunction p
  | None => None
  end.

(** ** Sample environment

    Stand-ins for the imported helpers on programs without parenthesised
    expressions, indentation or self-referencing callbacks, used to run the
    rule on concrete programs. *)
Module Sample.

Definition TAB : string := String (ascii_of_nat 9) EmptyString.

Definition punctuator (v : string) (start : nat) : Token :=
  mkToken Punctuator v (start, start + String.length v).
Definition keyword (v : string) (start : nat) : Token :=
  mkToken Keyword v (start, start + String.length v).
Definition ident (v : string) (start : nat) : Token :=
  mkToken IdentifierToken v (start, start + String.length v).

(** An identifier is a reference unless it is the property of a
    non-computed member access. *)
Definition referenceIdentifier (n : Node) : bool :=
  String.eqb (typeName n) "Identifier"
  && negb match parent n with
          | Some p => String.eqb (typeName p) "MemberExpression"
                      && negb (computed p)
                      && isNode (field "property" p) n
          | None => false
          end.

(** The dotted name of an identifier or of a plain member chain. *)
Fixpoint staticName (s : Syntax) : option string :=
  match type s with
  | Identifier x => Some x
  | MemberExpression false false =>
      match children s with
      | [("object", o); ("property", p)] =>
          match staticName o, type p with
          | Some a, Identifier b => Some (a +:+ "." +:+ b)
          | _, _ => None
          end
      | _ => None
      end
  | _ => None
  end.

Definition nodeMatches (n : Node) (names : list string) : bool :=
  match staticName (syntax n) with
  | Some x => existsb (String.eqb x) names
  | None => false
  end.

(** One tab before every line. *)
Fixpoint indentRest (s : string) : string :=
  match s with
  | EmptyString => EmptyString
  | String c rest =>
      if Ascii.eqb c (ascii_of_nat 10)
      then String c (TAB +:+ indentRest rest)
      else String c (indentRest rest)
  end.
Definition indent (s : string) : string :=
  if nonEmpty s then TAB +:+ indentRest s else s.

Definition imports (resolve : Scope -> Node -> option ScopeVariable) : Imports :=
  {| isParenthesized := fun _ _ => false;
     findVariable := resolve;
     indentString := indent;
     referenceIdentifierSelector := referenceIdentifier;
     needsSemicolon := fun _ _ _ => false;
     shouldAddParenthesesToExpressionStatementExpression := fun _ => false;
     getParentheses := fun _ _ => [];
     isFunctionSelfUsedInside := fun _ _ => false;
     isNodeMatches := nodeMatches;
     getIndentString := fun _ _ => "";
     fixSpaceAroundKeyword := fun _ _ => [] |}.

Definition leaf (i : nat) (t : NodeType) (r : nat * nat) : Syntax :=
  mkSyntax i t r (1, 1) [].
Definition tree (i : nat) (t : NodeType) (r : nat * nat)
    (cs : list (string * Syntax)) : Syntax :=
  mkSyntax i t r (1, 1) cs.

Definition globalScope : Scope := mkScope 0 None.
Definition innerScope (i : nat) : Scope := mkScope i (Some globalScope).

(** A table from node identities to values, with a default. *)
Definition byId {A} (table : list (nat * A)) (default : A) (n : Node) : A :=
  match List.find (fun e => Nat.eqb e.1 (nodeId n)) table with
  | Some e => e.2
  | None => default
  end.

Definition parameter (program : Syntax) (scope : Scope) (i : nat)
    (refs : list nat) : list ScopeVariable :=
  match nodeById program i with
  | Some n =>
      [mkVariable scope [mkDefinition "Parameter" n]
         (omap (fun r => mkReference <$> nodeById program r) refs)]
  | None => []
  end.
End Sample.

(** *** [foo.map(x => x).forEach(x => {})] *)
Module MapThenForEach.
Import Sample.

Definition source : string := "foo.map(x => x).forEach(x => {})".

Definition program : Syntax :=
  tree 0 (Plain "Program") (0, 32) [
    ("body", tree 1 (Plain "ExpressionStatement") (0, 32) [
      ("expression", tree 2 (CallExpression false) (0, 32) [
        ("callee", tree 3 (MemberExpression false false) (0, 23) [
          ("object", tree 4 (CallExpression false) (0, 15) [
            ("callee", tree 5 (MemberExpression false false) (0, 7) [
              ("object", leaf 6 (Identifier "foo") (0, 3));
              ("property", leaf 7 (Identifier "map") (4, 7))]);
            ("arguments", tree 8 (ArrowFunctionExpression false) (8, 14) [
              ("params", leaf 9 (Identifier "x") (8, 9));
              ("body", leaf 10 (Identifier "x") (13, 14))])]);
          ("property", leaf 11 (Identifier "forEach") (16, 23))]);
        ("arguments", tree 12 (ArrowFunctionExpression false) (24, 31) [
          ("params", leaf 13 (Identifier "x") (24, 25));
          ("body", leaf 14 (Plain "BlockStatement") (29, 31))])])])].

Definition sourceCode : SourceCode :=
  mkSourceCode source [
    ident "foo" 0; punctuator "." 3; ident "map" 4; punctuator "(" 7;
    ident "x" 8; punctuator "=>" 10; ident "x" 13; punctuator ")" 14;
    punctuator "." 15; ident "forEach" 16; punctuator "(" 23; ident "x" 24;
    punctuator "=>" 26; punctuator "{" 29; punctuator "}" 30;
    punctuator ")" 31].

Definition mapScope : Scope := innerScope 1.
Definition callbackScope : Scope := innerScope 2.

Definition mapParameter := parameter program mapScope 9 [10].
Definition callbackParameter := parameter program callbackScope 13 [].

Definition context : Context :=
  {| getSourceCode := sourceCode;
     getDeclaredVariables := byId [(8, mapParameter); (12, callbackParameter)] [];
     getScope := byId [(8, mapScope); (9, mapScope); (10, mapScope);
                       (12, callbackScope); (13, callbackScope);
                       (14, callbackScope)] globalScope |}.

Definition resolve (_ : Scope) : Node -> option ScopeVariable :=
  byId [(9, head mapParameter); (10, head mapParameter);
        (13, head callbackParameter)] None.

Definition problems := lint (imports resolve) context program.

(** The state at the end of the traversal, and the node of a given
    identity. *)
Definition state : State :=
  default initialState (traverse (imports resolve) context None program initialState).
Definition nodeAt (i : nat) : Node :=
  default (mkNode program None) (nodeById program i).
End MapThenForEach.


(** *** [a.b?.forEach(x => {})] *)
Module OptionalMember.
Import Sample.

Definition source : string := "a.b?.forEach(x => {})".

Definition program : Syntax :=
  tree 0 (Plain "Program") (0, 21) [
    ("body", tree 1 (Plain "ExpressionStatement") (0, 21) [
      ("expression", tree 2 (Plain "ChainExpression") (0, 21) [
        ("expression", tree 3 (CallExpression false) (0, 21) [
          ("callee", tree 4 (MemberExpression false true) (0, 12) [
            ("object", tree 5 (MemberExpression false false) (0, 3) [
              ("object", leaf 6 (Identifier "a") (0, 1));
              ("property", leaf 7 (Identifier "b") (2, 3))]);
            ("property", leaf 8 (Identifier "forEach") (5, 12))]);
          ("arguments", tree 9 (ArrowFunctionExpression false) (13, 20) [
            ("params", leaf 10 (Identifier "x") (13, 14));
            ("body", leaf 11 (Plain "BlockStatement") (18, 20))])])])])].

Definition sourceCode : SourceCode :=
  mkSourceCode source [
    ident "a" 0; punctuator "." 1; ident "b" 2; punctuator "?." 3;
    ident "forEach" 5; punctuator "(" 12; ident "x" 13; punctuator "=>" 15;
    punctuator "{" 18; punctuator "}" 19; punctuator ")" 20].

Definition callbackScope : Scope := innerScope 1.
Definition callbackParameter := parameter program callbackScope 10 [].

Definition context : Context :=
  {| getSourceCode := sourceCode;
     getDeclaredVariables := byId [(9, callbackParameter)] [];
     getScope := byId [(9, callbackScope); (10, callbackScope);
                       (11, callbackScope)] globalScope |}.

Definition resolve (_ : Scope) : Node -> option ScopeVariable :=
  byId [(10, head callbackParameter)] None.

Definition problems := lint (imports resolve) context program.

(** The state at the end of the traversal, and the node of a given
    identity. *)
Definition state : State :=
  default initialState (traverse (imports resolve) context None program initialState).
Definition nodeAt (i : nat) : Node :=
  default (mkNode program None) (nodeById program i).

(** The patch the rule generates: applied, it gives
<<
if (undefined) {
	for (const x of a.b) {}
}
>> *)
Definition patch : list Edit :=
  [mkEdit (0, 18) (TAB +:+ "for (const x of a.b) ");
   mkEdit (20, 21) "";
   mkEdit (0, 0) ("if (undefined) {" +:+ LF);
   mkEdit (21, 21) (LF +:+ "}");
   mkEdit (0, 0) "";
   mkEdit (21, 21) ""].
End OptionalMember.

(** *** [foo.forEach(x => { if (x) return; else return x; })] *)
Module ReturnInIf.
Import Sample.

Definition source : string :=
  "foo.forEach(x => { if (x) return; else return x; })".

Definition program : Syntax :=
  tree 0 (Plain "Program") (0, 51) [
    ("body", tree 1 (Plain "ExpressionStatement") (0, 51) [
      ("expression", tree 2 (CallExpression false) (0, 51) [
        ("callee", tree 3 (MemberExpression false false) (0, 11) [
          ("object", leaf 4 (Identifier "foo") (0, 3));
          ("property", leaf 5 (Identifier "forEach") (4, 11))]);
        ("arguments", tree 6 (ArrowFunctionExpression false) (12, 50) [
          ("params", leaf 7 (Identifier "x") (12, 13));
          ("body", tree 8 (Plain "BlockStatement") (17, 50) [
            ("body", tree 9 (Plain "IfStatement") (19, 48) [
              ("test", leaf 10 (Identifier "x") (23, 24));
              ("consequent", leaf 11 (Plain "ReturnStatement") (26, 33));
              ("alternate", tree 12 (Plain "ReturnStatement") (39, 48) [
                ("argument", leaf 13 (Identifier "x") (46, 47))])])])])])])].

Definition sourceCode : SourceCode :=
  mkSourceCode source [
    ident "foo" 0; punctuator "." 3; ident "forEach" 4; punctuator "(" 11;
    ident "x" 12; punctuator "=>" 14; punctuator "{" 17; keyword "if" 19;
    punctuator "(" 22; ident "x" 23; punctuator ")" 24; keyword "return" 26;
    punctuator ";" 32; keyword "else" 34; keyword "return" 39; ident "x" 46;
    punctuator ";" 47; punctuator "}" 49; punctuator ")" 50].

Definition callbackScope : Scope := innerScope 1.
Definition callbackParameter := parameter program callbackScope 7 [10; 13].

Definition context : Context :=
  {| getSourceCode := sourceCode;
     getDeclaredVariables := byId [(6, callbackParameter)] [];
     getScope := byId [(0, globalScope); (1, globalScope); (2, globalScope);
                       (3, globalScope); (4, globalScope); (5, globalScope)]
                   callbackScope |}.

Definition resolve (_ : Scope) : Node -> option ScopeVariable :=
  byId [(7, head callbackParameter); (10, head callbackParameter);
        (13, head callbackParameter)] None.

Definition problems := lint (imports resolve) context program.

(** The state at the end of the traversal, and the node of a given
    identity. *)
Definition state : State :=
  default initialState (traverse (imports resolve) context None program initialState).
Definition nodeAt (i : nat) : Node :=
  default (mkNode program None) (nodeById program i).

(** The patch the rule generates: applied, it gives
    [for (const x of foo) { if (x) continue; else { x; continue; } }]. *)
Definition patch : list Edit :=
  [mkEdit (0, 17) "for (const x of foo) ";
   mkEdit (50, 51) "";
   mkEdit (26, 32) "continue";
   mkEdit (39, 45) "";
   mkEdit (46, 46) "{ ";
   mkEdit (48, 48) " continue;";
   mkEdit (48, 48) " }";
   mkEdit (0, 0) "";
   mkEdit (51, 51) ""].
End ReturnInIf.

(** *** [a.forEach(x => { while (x) { f(() => { return; }); } })] *)
Module NestedReturn.
Import Sample.

Definition source : string :=
  "a.forEach(x => { while (x) { f(() => { return; }); } })".

Definition program : Syntax :=
  tree 0 (Plain "Program") (0, 55) [
    ("body", tree 1 (Plain "ExpressionStatement") (0, 55) [
      ("expression", tree 2 (CallExpression false) (0, 55) [
        ("callee", tree 3 (MemberExpression false false) (0, 9) [
          ("object", leaf 4 (Identifier "a") (0, 1));
          ("property", leaf 5 (Identifier "forEach") (2, 9))]);
        ("arguments", tree 6 (ArrowFunctionExpression false) (10, 54) [
          ("params", leaf 7 (Identifier "x") (10, 11));
          ("body", tree 8 (Plain "BlockStatement") (15, 54) [
            ("body", tree 9 (Plain "WhileStatement") (17, 52) [
              ("test", leaf 10 (Identifier "x") (24, 25));
              ("body", tree 11 (Plain "BlockStatement") (27, 52) [
                ("body", tree 12 (Plain "ExpressionStatement") (29, 50) [
                  ("expression", tree 13 (CallExpression false) (29, 49) [
                    ("callee", leaf 14 (Identifier "f") (29, 30));
                    ("arguments",
                     tree 15 (ArrowFunctionExpression false) (31, 48) [
                       ("body", tree 16 (Plain "BlockStatement") (37, 48) [
                         ("body",
                          leaf 17 (Plain "ReturnStatement") (39, 46))])])])])])])])])])])].

Definition sourceCode : SourceCode :=
  mkSourceCode source [
    ident "a" 0; punctuator "." 1; ident "forEach" 2; punctuator "(" 9;
    ident "x" 10; punctuator "=>" 12; punctuator "{" 15; keyword "while" 17;
    punctuator "(" 23; ident "x" 24; punctuator ")" 25; punctuator "{" 27;
    ident "f" 29; punctuator "(" 30; punctuator "(" 31; punctuator ")" 32;
    punctuator "=>" 34; punctuator "{" 37; keyword "return" 39;
    punctuator ";" 45; punctuator "}" 47; punctuator ")" 48;
    punctuator ";" 49; punctuator "}" 51; punctuator "}" 53;
    punctuator ")" 54].

Definition callbackScope : Scope := innerScope 1.
Definition nestedScope : Scope := mkScope 2 (Some callbackScope).
Definition callbackParameter := parameter program callbackScope 7 [10].

Definition context : Context :=
  {| getSourceCode := sourceCode;
     getDeclaredVariables := byId [(6, callbackParameter)] [];
     getScope := byId [(0, globalScope); (1, globalScope); (2, globalScope);
                       (3, globalScope); (4, globalScope); (5, globalScope);
                       (15, nestedScope); (16, nestedScope); (17, nestedScope)]
                   callbackScope |}.

Definition resolve (_ : Scope) : Node -> option ScopeVariable :=
  byId [(7, head callbackParameter); (10, head callbackParameter)] None.

Definition problems := lint (imports resolve) context program.

(** The state at the end of the traversal, and the node of a given
    identity. *)
Definition state : State :=
  default initialState (traverse (imports resolve) context None program initialState).
Definition nodeAt (i : nat) : Node :=
  default (mkNode program None) (nodeById program i).

(** The patch the rule generates: applied, it gives
    [for (const x of a) { while (x) { f(() => { return; }); } }]. *)
Definition patch : list Edit :=
  [mkEdit (0, 15) "for (const x of a) ";
   mkEdit (54, 55) "";
   mkEdit (0, 0) "";
   mkEdit (55, 55) ""].
End NestedReturn.

(** *** [a.forEach(x => { while (x) { return; } })] *)
Module ReturnInLoop.
Import Sample.

Definition source : string := "a.forEach(x => { while (x) { return; } })".

Definition program : Syntax :=
  tree 0 (Plain "Program") (0, 41) [
    ("body", tree 1 (Plain "ExpressionStatement") (0, 41) [
      ("expression", tree 2 (CallExpression false) (0, 41) [
        ("callee", tree 3 (MemberExpression false false) (0, 9) [
          ("object", leaf 4 (Identifier "a") (0, 1));
          ("property", leaf 5 (Identifier "forEach") (2, 9))]);
        ("arguments", tree 6 (ArrowFunctionExpression false) (10, 40) [
          ("params", leaf 7 (Identifier "x") (10, 11));
          ("body", tree 8 (Plain "BlockStatement") (15, 40) [
            ("body", tree 9 (Plain "WhileStatement") (17, 38) [
              ("test", leaf 10 (Identifier "x") (24, 25));
              ("body", tree 11 (Plain "BlockStatement") (27, 38) [
                ("body", leaf 12 (Plain "ReturnStatement") (29, 36))])])])])])])].

Definition sourceCode : SourceCode :=
  mkSourceCode source [
    ident "a" 0; punctuator "." 1; ident "forEach" 2; punctuator "(" 9;
    ident "x" 10; punctuator "=>" 12; punctuator "{" 15; keyword "while" 17;
    punctuator "(" 23; ident "x" 24; punctuator ")" 25; punctuator "{" 27;
    keyword "return" 29; punctuator ";" 35; punctuator "}" 37;
    punctuator "}" 39; punctuator ")" 40].

Definition callbackScope : Scope := innerScope 1.
Definition callbackParameter := parameter program callbackScope 7 [10].

Definition context : Context :=
  {| getSourceCode := sourceCode;
     getDeclaredVariables := byId [(6, callbackParameter)] [];
     getScope := byId [(0, globalScope); (1, globalScope); (2, globalScope);
                       (3, globalScope); (4, globalScope); (5, globalScope)]
                   callbackScope |}.

Definition resolve (_ : Scope) : Node -> option ScopeVariable :=
  byId [(7, head callbackParameter); (10, head callbackParameter)] None.

Definition problems := lint (imports resolve) context program.

(** The state at the end of the traversal, and the node of a given
    identity. *)
Definition state : State :=
  default initialState (traverse (imports resolve) context None program initialState).
Definition nodeAt (i : nat) : Node :=
  default (mkNode program None) (nodeById program i).
End ReturnInLoop.

(** *** A null-safe call with a block body over several lines
<<
foo?.forEach(x => {
	return;
});
>> *)
Module MultilineGuard.
Import Sample.

Definition source : string :=
  "foo?.forEach(x => {" +:+ LF +:+ TAB +:+ "return;" +:+ LF +:+ "});".

Definition program : Syntax :=
  mkSyntax 0 (Plain "Program") (0, 32) (1, 3) [
    ("body", mkSyntax 1 (Plain "ExpressionStatement") (0, 32) (1, 3) [
      ("expression", mkSyntax 2 (Plain "ChainExpression") (0, 31) (1, 3) [
        ("expression", mkSyntax 3 (CallExpression false) (0, 31) (1, 3) [
          ("callee", tree 4 (MemberExpression false true) (0, 12) [
            ("object", leaf 5 (Identifier "foo") (0, 3));
            ("property", leaf 6 (Identifier "forEach") (5, 12))]);
          ("arguments",
           mkSyntax 7 (ArrowFunctionExpression false) (13, 30) (1, 3) [
             ("params", leaf 8 (Identifier "x") (13, 14));
             ("body", mkSyntax 9 (Plain "BlockStatement") (18, 30) (1, 3) [
               ("body",
                mkSyntax 10 (Plain "ReturnStatement") (21, 28) (2, 2) [])])])])])])].

Definition sourceCode : SourceCode :=
  mkSourceCode source [
    ident "foo" 0; punctuator "?." 3; ident "forEach" 5; punctuator "(" 12;
    ident "x" 13; punctuator "=>" 15; punctuator "{" 18; keyword "return" 21;
    punctuator ";" 27; punctuator "}" 29; punctuator ")" 30;
    punctuator ";" 31].

Definition callbackScope : Scope := innerScope 1.
Definition callbackParameter := parameter program callbackScope 8 [].

Definition context : Context :=
  {| getSourceCode := sourceCode;
     getDeclaredVariables := byId [(7, callbackParameter)] [];
     getScope := byId [(7, callbackScope); (8, callbackScope);
                       (9, callbackScope); (10, callbackScope)] globalScope |}.

Definition resolve (_ : Scope) : Node -> option ScopeVariable :=
  byId [(8, head callbackParameter)] None.

Definition problems := lint (imports resolve) context program.

(** The state at the end of the traversal, and the node of a given
    identity. *)
Definition state : State :=
  default initialState (traverse (imports resolve) context None program initialState).
Definition nodeAt (i : nat) : Node :=
  default (mkNode program None) (nodeById program i).

(** The patch the rule generates. *)
Definition patch : list Edit :=
  [mkEdit (0, 18) (TAB +:+ "for (const x of foo) ");
   mkEdit (30, 31) "";
   mkEdit (21, 27) "continue";
   mkEdit (31, 32) "";
   mkEdit (0, 0) ("if (foo) {" +:+ LF);
   mkEdit (31, 31) (LF +:+ "}");
   mkEdit (29, 30) (TAB +:+ "}");
   mkEdit (21, 28) (TAB +:+ "return;");
   mkEdit (0, 0) "";
   mkEdit (31, 31) ""].
End MultilineGuard.

(** ** Vocabulary of the statements *)

(** The proper ancestors of a node, nearest first. *)
Fixpoint ancestors (n : Node) : list Node :=
  match parent n with
  | Some p => p :: ancestors p
  | None => []
  end.

(** The proper ancestors of [n] below [stop]: those strictly between the
    two when [stop] is an ancestor of [n]. *)
Fixpoint ancestorsBelow (stop n : Node) : list Node :=
  match parent n with
  | Some p => if sameNode p stop then [] else p :: ancestorsBelow stop p
  | None => []
  end.

(** The function nodes at and above a node, outermost first: the nesting
    stack while the traversal is inside that node. *)
Fixpoint functionsAbove (n : Node) : list Node :=
  match parent n with
  | Some p => functionsAbove p
  | None => []
  end ++ (if isFunction n then [n] else []).

Definition stackAt (p : option Node) : list Node :=
  match p with Some n => functionsAbove n | None => [] end.

Definition isReturnStatement (n : Node) : bool :=
  String.eqb (typeName n) "ReturnStatement".

(** The function metadata after one more node, attributing a return
    statement by its parent links alone. *)
Definition collectNode (context : Context) (m : gmap nat FunctionInfo)
    (node : Node) : gmap nat FunctionInfo :=
  let m := if isFunction node
           then <[nodeId node := mkFunctionInfo [] (getScope context node)]> m
           else m in
  if isReturnStatement node then
    match enclosingFunction node with
    | Some f =>
        match m !! nodeId f with
        | Some info =>
            <[nodeId f := mkFunctionInfo (returnStatements info ++ [node])
                            (scope info)]> m
        | None => m
        end
    | None => m
    end
  else m.

Definition collect (context : Context) (l : list Node)
    (m : gmap nat FunctionInfo) : gmap nat FunctionInfo :=
  fold_left (collectNode context) l m.

(** The return statements of [l] whose nearest enclosing function is [f]. *)
Definition ownedBy (f : Node) (l : list Node) : list Node :=
  List.filter (fun r => isReturnStatement r && isNode (enclosingFunction r) f) l.

(** A matched call site whose receiver is not in the allowlist. *)
Definition isReported (imports : Imports) (n : Node) : bool :=
  arrayForEachCallSelector n
  && match field "callee" n ≫= field "object" with
     | Some object => negb (isNodeMatches imports object ignoredObjects)
     | None => false
     end.

Definition callSiteOf (context : Context) (n : Node) : CallSite :=
  mkCallSite n (getScope context n).

(** Every function node has a body, as the syntax of the language has it. *)
Definition functionsHaveBody (program : Syntax) : bool :=
  forallb (fun n => implb (isFunction n) (bool_decide (is_Some (field "body" n))))
    (nodesOf None program).

(** The state the traversal is in below parent [p]. *)
Definition inside (p : option Node) (st : State) : Prop :=
  functionStack st = stackAt p
  /\ forall f, In f (stackAt p) -> is_Some (functionInfo st !! nodeId f).

(** The state after the nodes [l] have been visited from [st], the
    nesting stack being [stack] again. *)
Definition visited (imports : Imports) (context : Context) (stack : list Node)
    (l : list Node) (st : State) : State :=
  mkState stack
    (callExpressions st
     ++ List.map (callSiteOf context) (List.filter (isReported imports) l))
    (allIdentifiers st
     ++ List.filter (referenceIdentifierSelector imports) l)
    (collect context l (functionInfo st)).

(** ** The parameter check, as the code decides it and as the text words it *)

(** An identifier lying within the range of [array]: the test the loop of
    [isFunctionParametersSafeToFix] makes on [start] and [end]. *)
Definition inRange (array identifier : Node) : bool :=
  negb (Nat.ltb (nodeRange identifier).1 (nodeRange array).1
        || Nat.ltb (nodeRange array).2 (nodeRange identifier).2).

(** An identifier that resolves to nothing, or to a binding of the scope
    of the call site or of one of the scopes around it. *)
Definition resolvesOutside (imports : Imports) (scope : Scope) (identifier : Node)
    : bool :=
  match findVariable imports scope identifier with
  | None => true
  | Some variable =>
      sameScope (varScope variable) scope || isChildScope scope (varScope variable)
  end.

(** The rejection condition in the words of the specification: some
    callback parameter name is referenced outside the callback but within
    the range of the iterated-source expression, and resolves to a binding
    whose scope is neither the callback's own scope nor one of its
    descendants. *)
Definition capturedInIteratedSource (imports : Imports) (context : Context)
    (scope callbackScope : Scope) (callback array : Node)
    (allIdentifiers : list Node) : bool :=
  existsb (fun variable =>
    existsb (fun definition =>
      String.eqb (defType definition) "Parameter"
      && existsb (fun identifier =>
           optionStringEqb (name identifier) (name (defName definition))
           && negb (inRange callback identifier)
           && inRange array identifier
           && match findVariable imports scope identifier with
              | Some binding => negb (isChildScope (varScope binding) callbackScope)
              | None => false
              end)
           allIdentifiers)
      (defs variable))
    (getDeclaredVariables context callback).

(** ** Reassignment of a callback parameter *)

(** A reference that is the operand of an increment or decrement, or the
    direct target of an assignment. *)
Definition isReassignment (reference : Reference) : bool :=
  let node := identifier reference in
  match parent node with
  | Some p =>
      String.eqb (typeName p) "UpdateExpression"
      || (String.eqb (typeName p) "AssignmentExpression"
          && isNode (field "left" p) node)
  | None => false
  end.

(** Some reference to one of the callback's parameters is a reassignment. *)
Definition parameterIsReassigned (context : Context) (callback : Node) : Prop :=
  exists variable definition reference,
    In variable (getDeclaredVariables context callback)
    /\ head (defs variable) = Some definition
    /\ defType definition = "Parameter"
    /\ In reference (references variable)
    /\ isReassignment reference = true.

(** ** Return statements that are a branch of their own *)


(** ** Overlapping edits *)

(** Two edits overlap when each starts before the other ends: neither
    can be applied wholly before the other. *)
Definition overlap (a b : Edit) : bool :=
  Nat.ltb (editRange a).1 (editRange b).2 && Nat.ltb (editRange b).1 (editRange a).2.

(** *** [Children.forEach(x => {})], a receiver of the allowlist *)
Module Allowlisted.
Import Sample.

Definition source : string := "Children.forEach(x => {})".

Definition program : Syntax :=
  tree 0 (Plain "Program") (0, 25) [
    ("body", tree 1 (Plain "ExpressionStatement") (0, 25) [
      ("expression", tree 2 (CallExpression false) (0, 25) [
        ("callee", tree 3 (MemberExpression false false) (0, 16) [
          ("object", leaf 4 (Identifier "Children") (0, 8));
          ("property", leaf 5 (Identifier "forEach") (9, 16))]);
        ("arguments", tree 6 (ArrowFunctionExpression false) (17, 24) [
          ("params", leaf 7 (Identifier "x") (17, 18));
          ("body", leaf 8 (Plain "BlockStatement") (22, 24))])])])].

Definition sourceCode : SourceCode :=
  mkSourceCode source [
    ident "Children" 0; punctuator "." 8; ident "forEach" 9; punctuator "(" 16;
    ident "x" 17; punctuator "=>" 19; punctuator "{" 22; punctuator "}" 23;
    punctuator ")" 24].

Definition callbackScope : Scope := innerScope 1.
Definition callbackParameter := parameter program callbackScope 7 [].

Definition context : Context :=
  {| getSourceCode := sourceCode;
     getDeclaredVariables := byId [(6, callbackParameter)] [];
     getScope := byId [(6, callbackScope); (7, callbackScope);
                       (8, callbackScope)] globalScope |}.

Definition resolve (_ : Scope) : Node -> option ScopeVariable :=
  byId [(7, head callbackParameter)] None.
End Allowlisted.

(** *** [foo.forEach(async x => {})] *)
Module AsyncCallback.
Import Sample.

Definition source : string := "foo.forEach(async x => {})".

Definition program : Syntax :=
  tree 0 (Plain "Program") (0, 26) [
    ("body", tree 1 (Plain "ExpressionStatement") (0, 26) [
      ("expression", tree 2 (CallExpression false) (0, 26) [
        ("callee", tree 3 (MemberExpression false false) (0, 11) [
          ("object", leaf 4 (Identifier "foo") (0, 3));
          ("property", leaf 5 (Identifier "forEach") (4, 11))]);
        ("arguments", tree 6 (ArrowFunctionExpression true) (12, 25) [
          ("params", leaf 7 (Identifier "x") (18, 19));
          ("body", leaf 8 (Plain "BlockStatement") (23, 25))])])])].

Definition sourceCode : SourceCode :=
  mkSourceCode source [
    ident "foo" 0; punctuator "." 3; ident "forEach" 4; punctuator "(" 11;
    ident "async" 12; ident "x" 18; punctuator "=>" 20; punctuator "{" 23;
    punctuator "}" 24; punctuator ")" 25].

Definition callbackScope : Scope := innerScope 1.
Definition callbackParameter := parameter program callbackScope 7 [].

Definition context : Context :=
  {| getSourceCode := sourceCode;
     getDeclaredVariables := byId [(6, callbackParameter)] [];
     getScope := byId [(6, callbackScope); (7, callbackScope);
                       (8, callbackScope)] globalScope |}.

Definition resolve (_ : Scope) : Node -> option ScopeVariable :=
  byId [(7, head callbackParameter)] None.

Definition nodeAt (i : nat) : Node :=
  default (mkNode program None) (nodeById program i).
End AsyncCallback.

(** *** [list.forEach((x, i) => f(i, x))] *)
Module ExpressionBody.
Import Sample.

Definition source : string := "list.forEach((x, i) => f(i, x))".

Definition program : Syntax :=
  tree 0 (Plain "Program") (0, 31) [
    ("body", tree 1 (Plain "ExpressionStatement") (0, 31) [
      ("expression", tree 2 (CallExpression false) (0, 31) [
        ("callee", tree 3 (MemberExpression false false) (0, 12) [
          ("object", leaf 4 (Identifier "list") (0, 4));
          ("property", leaf 5 (Identifier "forEach") (5, 12))]);
        ("arguments", tree 6 (ArrowFunctionExpression false) (13, 30) [
          ("params", leaf 7 (Identifier "x") (14, 15));
          ("params", leaf 8 (Identifier "i") (17, 18));
          ("body", tree 9 (CallExpression false) (23, 30) [
            ("callee", leaf 10 (Identifier "f") (23, 24));
            ("arguments", leaf 11 (Identifier "i") (25, 26));
            ("arguments", leaf 12 (Identifier "x") (28, 29))])])])])].

Definition sourceCode : SourceCode :=
  mkSourceCode source [
    ident "list" 0; punctuator "." 4; ident "forEach" 5; punctuator "(" 12;
    punctuator "(" 13; ident "x" 14; punctuator "," 15; ident "i" 17;
    punctuator ")" 18; punctuator "=>" 20; ident "f" 23; punctuator "(" 24;
    ident "i" 25; punctuator "," 26; ident "x" 28; punctuator ")" 29;
    punctuator ")" 30].

Definition callbackScope : Scope := innerScope 1.
Definition elementParameter := parameter program callbackScope 7 [12].
Definition indexParameter := parameter program callbackScope 8 [11].

Definition context : Context :=
  {| getSourceCode := sourceCode;
     getDeclaredVariables := byId [(6, elementParameter ++ indexParameter)] [];
     getScope := byId [(0, globalScope); (1, globalScope); (2, globalScope);
                       (3, globalScope); (4, globalScope); (5, globalScope)]
                   callbackScope |}.

Definition resolve (_ : Scope) : Node -> option ScopeVariable :=
  byId [(7, head elementParameter); (12, head elementParameter);
        (8, head indexParameter); (11, head indexParameter)] None.

Definition state : State :=
  default initialState (traverse (imports resolve) context None program initialState).
Definition nodeAt (i : nat) : Node :=
  default (mkNode program None) (nodeById program i).

(** The patch the rule generates: applied, it gives
    [for (const [i, x] of list.entries())  f(i, x)]. *)
Definition patch : list Edit :=
  [mkEdit (0, 22) "for (const [i, x] of list.entries()) ";
   mkEdit (30, 31) "";
   mkEdit (0, 0) "";
   mkEdit (31, 31) ""].
End ExpressionBody.

(** ** Scope chains *)

(** A scope and the scopes around it, innermost first. *)
Fixpoint scopeChain (s : Scope) : list Scope :=
  s :: match upper s with
       | Some u => scopeChain u
       | None => []
       end.

(** White space only. *)
Fixpoint allWhitespace (s : string) : bool :=
  match s with
  | EmptyString => true
  | String c rest => isWhitespace c && allWhitespace rest
  end.

(** The last character of a string. *)
Fixpoint lastCharacter (s : string) : option ascii :=
  match s with
  | EmptyString => None
  | String c EmptyString => Some c
  | String _ rest => lastCharacter rest
  end.

(** *** [foo.forEach((x = 1) => {})], a parameter with a default value *)
Module DefaultParameter.
Import Sample.

Definition source : string := "foo.forEach((x = 1) => {})".

Definition program : Syntax :=
  tree 0 (Plain "Program") (0, 26) [
    ("body", tree 1 (Plain "ExpressionStatement") (0, 26) [
      ("expression", tree 2 (CallExpression false) (0, 26) [
        ("callee", tree 3 (MemberExpression false false) (0, 11) [
          ("object", leaf 4 (Identifier "foo") (0, 3));
          ("property", leaf 5 (Identifier "forEach") (4, 11))]);
        ("arguments", tree 6 (ArrowFunctionExpression false) (12, 25) [
          ("params", tree 7 (Plain "AssignmentPattern") (13, 18) [
            ("left", leaf 8 (Identifier "x") (13, 14));
            ("right", leaf 9 (Plain "Literal") (17, 18))]);
          ("body", leaf 10 (Plain "BlockStatement") (23, 25))])])])].

Definition sourceCode : SourceCode :=
  mkSourceCode source [
    ident "foo" 0; punctuator "." 3; ident "forEach" 4; punctuator "(" 11;
    punctuator "(" 12; ident "x" 13; punctuator "=" 15;
    mkToken OtherToken "1" (17, 18); punctuator ")" 18; punctuator "=>" 20;
    punctuator "{" 23; punctuator "}" 24; punctuator ")" 25].

Definition callbackScope : Scope := innerScope 1.

(** The parameter is bound to the identifier on the left of the pattern;
    the default value initialises it, which the scope analysis records as
    a reference. *)
Definition callbackParameter := parameter program callbackScope 8 [8].

Definition context : Context :=
  {| getSourceCode := sourceCode;
     getDeclaredVariables := byId [(6, callbackParameter)] [];
     getScope := byId [(0, globalScope); (1, globalScope); (2, globalScope);
                       (3, globalScope); (4, globalScope); (5, globalScope)]
                   callbackScope |}.

Definition resolve (_ : Scope) : Node -> option ScopeVariable :=
  byId [(8, head callbackParameter)] None.

Definition state : State :=
  default initialState (traverse (imports resolve) context None program initialState).
Definition nodeAt (i : nat) : Node :=
  default (mkNode program None) (nodeById program i).

(** The patch the rule generates: applied, it gives
    [for (const x = 1 of foo) {}]. *)
Definition patch : list Edit :=
  [mkEdit (0, 23) "for (const x = 1 of foo) ";
   mkEdit (25, 26) "";
   mkEdit (0, 0) "";
   mkEdit (26, 26) ""].
End DefaultParameter.

(** *** [foo.forEach((a, b = a++) => {})], a parameter reassigned in the
    default value of another *)
Module DefaultInitialiser.
Import Sample.

Definition source : string := "foo.forEach((a, b = a++) => {})".

Definition program : Syntax :=
  tree 0 (Plain "Program") (0, 31) [
    ("body", tree 1 (Plain "ExpressionStatement") (0, 31) [
      ("expression", tree 2 (CallExpression false) (0, 31) [
        ("callee", tree 3 (MemberExpression false false) (0, 11) [
          ("object", leaf 4 (Identifier "foo") (0, 3));
          ("property", leaf 5 (Identifier "forEach") (4, 11))]);
        ("arguments", tree 6 (ArrowFunctionExpression false) (12, 30) [
          ("params", leaf 7 (Identifier "a") (13, 14));
          ("params", tree 8 (Plain "AssignmentPattern") (16, 23) [
            ("left", leaf 9 (Identifier "b") (16, 17));
            ("right", tree 10 (Plain "UpdateExpression") (20, 23) [
              ("argument", leaf 11 (Identifier "a") (20, 21))])]);
          ("body", leaf 12 (Plain "BlockStatement") (28, 30))])])])].

Definition sourceCode : SourceCode :=
  mkSourceCode source [
    ident "foo" 0; punctuator "." 3; ident "forEach" 4; punctuator "(" 11;
    punctuator "(" 12; ident "a" 13; punctuator "," 14; ident "b" 16;
    punctuator "=" 18; ident "a" 20; punctuator "++" 21; punctuator ")" 23;
    punctuator "=>" 25; punctuator "{" 28; punctuator "}" 29; punctuator ")" 30].

Definition callbackScope : Scope := innerScope 1.
Definition elementParameter := parameter program callbackScope 7 [11].
Definition indexParameter := parameter program callbackScope 9 [9].

Definition context : Context :=
  {| getSourceCode := sourceCode;
     getDeclaredVariables := byId [(6, elementParameter ++ indexParameter)] [];
     getScope := byId [(0, globalScope); (1, globalScope); (2, globalScope);
                       (3, globalScope); (4, globalScope); (5, globalScope)]
                   callbackScope |}.

Definition resolve (_ : Scope) : Node -> option ScopeVariable :=
  byId [(7, head elementParameter); (11, head elementParameter);
        (9, head indexParameter)] None.

Definition state : State :=
  default initialState (traverse (imports resolve) context None program initialState).
Definition nodeAt (i : nat) : Node :=
  default (mkNode program None) (nodeById program i).

(** The patch the rule generates: applied, it gives
    [for (let [b = a++, a] of foo.entries()) {}]. *)
Definition patch : list Edit :=
  [mkEdit (0, 28) "for (let [b = a++, a] of foo.entries()) ";
   mkEdit (30, 31) "";
   mkEdit (0, 0) "";
   mkEdit (31, 31) ""].
End DefaultInitialiser.

(** ** Reassignment inside the callback body *)

(** Some reference to one of the callback's parameters is a reassignment
    and lies within the range of [body]. *)
Definition parameterIsReassignedInBody (context : Context) (callback body : Node)
    : Prop :=
  exists variable definition reference,
    In variable (getDeclaredVariables context callback)
    /\ head (defs variable) = Some definition
    /\ defType definition = "Parameter"
    /\ In reference (references variable)
    /\ isReassignment reference = true
    /\ inRange body (identifier reference) = true.

(** * Properties *)

(** Splitting a conjunction into its parts. *)
Ltac split_conjunctions := repeat match goal with |- _ /\ _ => split end.

(** ** Induction over trees and over parent links *)

Lemma Syntax_tree_ind (P : Syntax -> Prop)
    (step : forall i t r l cs, Forall (fun c => P c.2) cs -> P (mkSyntax i t r l cs)) :
  forall s, P s.
Proof.
  fix IH 1. intros [i t r l cs]. apply step.
  induction cs as [|c cs IHcs]; constructor; [apply IH | exact IHcs].
Qed.

Lemma Node_parent_ind (P : Node -> Prop)
    (root : forall s, P (mkNode s None))
    (step : forall s p, P p -> P (mkNode s (Some p))) :
  forall n, P n.
Proof.
  fix IH 1. intros [s [p|]]; [apply step, IH | apply root].
Qed.

Lemma Scope_upper_ind (P : Scope -> Prop)
    (root : forall i, P (mkScope i None))
    (step : forall i u, P u -> P (mkScope i (Some u))) :
  forall s, P s.
Proof.
  fix IH 1. intros [i [u|]]; [apply step, IH | apply root].
Qed.

(** ** The nesting stack and the parent links *)

Lemma isFunction_not_return n : isFunction n = true -> isReturnStatement n = false.
Proof.
  unfold isFunction, isReturnStatement. intros H.
  destruct (String.eqb_spec (typeName n) "ReturnStatement") as [E|]; [|done].
  rewrite E in H. discriminate H.
Qed.

Lemma last_functionsAbove n :
  last (functionsAbove n) = if isFunction n then Some n else enclosingFunction n.
Proof.
  induction n as [s|s p IH] using Node_parent_ind; cbn [functionsAbove enclosingFunction parent].
  - destruct (isFunction _); reflexivity.
  - destruct (isFunction (mkNode s (Some p))).
    + apply last_snoc.
    + rewrite app_nil_r. exact IH.
Qed.

Lemma last_stackAt n : last (stackAt (parent n)) = enclosingFunction n.
Proof.
  destruct n as [s [p|]]; cbn [stackAt parent enclosingFunction]; [|reflexivity].
  apply last_functionsAbove.
Qed.

Lemma hasFunctionAncestor_enclosing n :
  hasFunctionAncestor n = true <-> is_Some (enclosingFunction n).
Proof.
  induction n as [s|s p IH] using Node_parent_ind;
    cbn [hasFunctionAncestor enclosingFunction parent].
  - split; [discriminate | intros [? ?]; discriminate].
  - destruct (isFunction p); cbn; [split; eauto | exact IH].
Qed.

Lemma stackAt_child n :
  stackAt (Some n) = stackAt (parent n) ++ (if isFunction n then [n] else []).
Proof. destruct n as [s [p|]]; reflexivity. Qed.

(** ** Attribution by parent links never loses an entry *)

Lemma collectNode_is_Some context m node k :
  is_Some (m !! k) -> is_Some (collectNode context m node !! k).
Proof.
  intros Hk. unfold collectNode.
  set (m1 := if isFunction node then _ else m).
  assert (H1 : is_Some (m1 !! k)).
  { subst m1. destruct (isFunction node); [|exact Hk].
    rewrite lookup_insert. case_decide; eauto. }
  destruct (isReturnStatement node); [|exact H1].
  destruct (enclosingFunction node) as [f|]; [|exact H1].
  destruct (m1 !! nodeId f) eqn:E; [|exact H1].
  rewrite lookup_insert. case_decide; eauto.
Qed.

Lemma collect_is_Some context l m k :
  is_Some (m !! k) -> is_Some (collect context l m !! k).
Proof.
  revert m. induction l as [|n l IH]; intros m Hk; [exact Hk|].
  apply IH, collectNode_is_Some, Hk.
Qed.

Lemma collect_app context l1 l2 m :
  collect context (l1 ++ l2) m = collect context l2 (collect context l1 m).
Proof. apply fold_left_app. Qed.

Lemma collect_cons context n l m :
  collect context (n :: l) m = collect context l (collectNode context m n).
Proof. reflexivity. Qed.

Lemma collectNode_function context m node :
  isFunction node = true ->
  collectNode context m node
  = <[nodeId node := mkFunctionInfo [] (getScope context node)]> m.
Proof.
  intros H. unfold collectNode. rewrite H, (isFunction_not_return _ H). reflexivity.
Qed.

Lemma collect_function_is_Some context l m f :
  In f l -> isFunction f = true -> is_Some (collect context l m !! nodeId f).
Proof.
  revert m. induction l as [|n l IH]; intros m Hin Hf; [destruct Hin|].
  destruct Hin as [->|Hin].
  - cbn. apply collect_is_Some. rewrite (collectNode_function _ _ _ Hf).
    rewrite lookup_insert_eq. eauto.
  - cbn. apply IH; assumption.
Qed.

(** ** What entering a node does *)

Section Traversal.
Context (imports : Imports) (context : Context).

Lemma selector_callee n :
  arrayForEachCallSelector n = true ->
  exists callee object property,
    field "callee" n = Some callee /\ field "object" callee = Some object
    /\ field "property" callee = Some property.
Proof.
  unfold arrayForEachCallSelector. intros H.
  apply andb_prop in H as [_ H].
  destruct (field "callee" n) as [callee|]; [|discriminate].
  apply andb_prop in H as [_ H].
  destruct (field "object" callee) as [object|] eqn:Ho; [|discriminate].
  destruct (field "property" callee) as [property|] eqn:Hp; [|discriminate].
  exists callee, object, property. repeat split; assumption.
Qed.

Lemma enter_spec n st :
  inside (parent n) st ->
  enter imports context n st
  = Some (visited imports context (functionStack st ++ (if isFunction n then [n] else [])) [n] st).
Proof.
  intros [Hstack Hinfo]. unfold enter, visited. cbn [List.filter List.map collect fold_left].
  destruct (isFunction n) eqn:Hfun.
  - (* a function: never a return statement *)
    pose proof (isFunction_not_return _ Hfun) as Hret.
    unfold isReturnStatement in Hret. rewrite Hret. cbn [andb].
    rewrite (collectNode_function _ _ _ Hfun).
    destruct (referenceIdentifierSelector imports n);
      cbn [onFunction onReferenceIdentifier mbind option_bind
           functionStack callExpressions allIdentifiers functionInfo];
      unfold isReported; destruct (arrayForEachCallSelector n) eqn:Hsel; cbn [andb].
    all: try (rewrite !app_nil_r; reflexivity).
    all: destruct (selector_callee _ Hsel) as (callee & object & property & Hc & Ho & _).
    all: unfold onArrayForEachCall; rewrite Hc; cbn [mbind option_bind]; rewrite Ho;
         cbn [mbind option_bind].
    all: destruct (isNodeMatches imports object ignoredObjects); cbn;
         rewrite ?app_nil_r; reflexivity.
  - rewrite app_nil_r.
    assert (Hcollect :
      (if String.eqb (typeName n) "ReturnStatement" && hasFunctionAncestor n
       then onReturnStatement n
              (if referenceIdentifierSelector imports n
               then onReferenceIdentifier n st else st)
       else Some (if referenceIdentifierSelector imports n
                  then onReferenceIdentifier n st else st))
      = Some (mkState (functionStack st) (callExpressions st)
                (allIdentifiers st
                 ++ (if referenceIdentifierSelector imports n then [n] else []))
                (collectNode context (functionInfo st) n))).
    { unfold collectNode. rewrite Hfun. unfold isReturnStatement.
      destruct (String.eqb (typeName n) "ReturnStatement"); cbn [andb].
      - destruct (hasFunctionAncestor n) eqn:Hanc.
        + apply hasFunctionAncestor_enclosing in Hanc as [f Hf]. rewrite Hf.
          assert (Hlast : last (functionStack st) = Some f)
            by (rewrite Hstack, last_stackAt; exact Hf).
          destruct (Hinfo f) as [info Hlook].
          { apply last_Some in Hlast as [l' Hl']. rewrite <- Hstack, Hl'.
            apply in_or_app. right. left. reflexivity. }
          unfold onReturnStatement.
          destruct (referenceIdentifierSelector imports n);
            cbn [onReferenceIdentifier functionStack functionInfo callExpressions
                 allIdentifiers];
            rewrite Hlast; cbn [mbind option_bind]; rewrite Hlook;
            cbn [mbind option_bind]; rewrite ?app_nil_r; reflexivity.
        + destruct (enclosingFunction n) as [f|] eqn:Hf.
          { assert (hasFunctionAncestor n = true)
              by (apply hasFunctionAncestor_enclosing; eauto). congruence. }
          destruct (referenceIdentifierSelector imports n), st; cbn;
            rewrite ?app_nil_r; reflexivity.
      - destruct (referenceIdentifierSelector imports n), st; cbn;
          rewrite ?app_nil_r; reflexivity. }
    rewrite Hcollect. cbn [mbind option_bind].
    unfold isReported. destruct (arrayForEachCallSelector n) eqn:Hsel; cbn [andb].
    + destruct (selector_callee _ Hsel) as (callee & object & property & Hc & Ho & _).
      unfold onArrayForEachCall. rewrite Hc. cbn [mbind option_bind]. rewrite Ho.
      cbn [mbind option_bind].
      destruct (isNodeMatches imports object ignoredObjects),
        (referenceIdentifierSelector imports n); cbn; rewrite ?app_nil_r; reflexivity.
    + destruct (referenceIdentifierSelector imports n); cbn;
        rewrite ?app_nil_r; reflexivity.
Qed.

Lemma visited_visited s1 s2 l1 l2 st :
  visited imports context s2 l2 (visited imports context s1 l1 st) = visited imports context s2 (l1 ++ l2) st.
Proof.
  unfold visited. cbn [callExpressions allIdentifiers functionInfo].
  rewrite !List.filter_app, List.map_app, !app_assoc, collect_app. reflexivity.
Qed.

Lemma visited_nil st : visited imports context (functionStack st) [] st = st.
Proof. destruct st. unfold visited. cbn. rewrite !app_nil_r. reflexivity. Qed.

Lemma inside_visited p l st : inside p st -> inside p (visited imports context (functionStack st) l st).
Proof.
  intros [Hstack Hinfo]. split; [exact Hstack|].
  intros f Hf. cbn. apply collect_is_Some, Hinfo, Hf.
Qed.

Lemma traverse_eq p s st :
  traverse imports context p s st
  = (st1 ← enter imports context (mkNode s p) st;
     st2 ← visitChildren (traverse imports context (Some (mkNode s p))) (children s) st1;
     Some (leave (mkNode s p) st2)).
Proof. destruct s; reflexivity. Qed.

Lemma nodesOf_eq p s :
  nodesOf p s
  = mkNode s p :: List.flat_map (fun c => nodesOf (Some (mkNode s p)) c.2) (children s).
Proof. destruct s; reflexivity. Qed.

Lemma visitChildren_spec node cs :
  Forall (fun c => forall p st, inside p st ->
            traverse imports context p c.2 st
            = Some (visited imports context (functionStack st) (nodesOf p c.2) st)) cs ->
  forall st, inside (Some node) st ->
    visitChildren (traverse imports context (Some node)) cs st
    = Some (visited imports context (functionStack st)
              (List.flat_map (fun c => nodesOf (Some node) c.2) cs) st).
Proof.
  induction 1 as [|c cs Hc _ IH]; intros st Hst; cbn [visitChildren List.flat_map].
  - rewrite visited_nil. reflexivity.
  - rewrite (Hc _ _ Hst). cbn [mbind option_bind].
    rewrite (IH _ (inside_visited _ _ _ Hst)), visited_visited. reflexivity.
Qed.

(** The traversal never throws; it leaves the nesting stack as it found
    it and attributes every return statement as the parent links do. *)
Lemma traverse_spec s :
  forall p st, inside p st ->
    traverse imports context p s st
    = Some (visited imports context (functionStack st) (nodesOf p s) st).
Proof.
  induction s as [i t r l cs IH] using Syntax_tree_ind. intros p st Hst.
  rewrite traverse_eq, nodesOf_eq. set (s := mkSyntax i t r l cs).
  set (node := mkNode s p). change (children s) with cs.
  rewrite (enter_spec node st Hst). cbn [mbind option_bind].
  set (st1 := visited imports context _ [node] st).
  assert (Hst1 : inside (Some node) st1).
  { destruct Hst as [Hstack Hinfo]. split.
    - rewrite stackAt_child. change (parent node) with p. rewrite <- Hstack.
      reflexivity.
    - intros f Hf. rewrite stackAt_child in Hf. change (parent node) with p in Hf.
      apply in_app_or in Hf as [Hf|Hf].
      + apply (collect_is_Some context [node]), Hinfo, Hf.
      + destruct (isFunction node) eqn:Hfun; [|destruct Hf].
        destruct Hf as [<-|[]].
        apply (collect_function_is_Some context [node]);
          [left; reflexivity | exact Hfun]. }
  rewrite (visitChildren_spec node cs IH st1 Hst1). cbn [mbind option_bind].
  f_equal. unfold leave. subst st1.
  rewrite visited_visited.
  destruct (isFunction node).
  - unfold onFunctionExit, visited.
    cbn [functionStack callExpressions allIdentifiers functionInfo].
    rewrite removelast_last. reflexivity.
  - rewrite app_nil_r. reflexivity.
Qed.

Lemma inside_initial : inside None initialState.
Proof. split; [reflexivity | intros f []]. Qed.

Lemma traverse_program program :
  traverse imports context None program initialState
  = Some (visited imports context [] (nodesOf None program) initialState).
Proof. apply (traverse_spec program None initialState inside_initial). Qed.
End Traversal.

(** ** The shape of the node list *)

Lemma nodesOf_cons p s :
  nodesOf p s
  = mkNode s p :: List.flat_map (fun c => nodesOf (Some (mkNode s p)) c.2) (children s).
Proof. destruct s; reflexivity. Qed.

(** A node of the tree is the root or has its parent in the tree. *)
Lemma nodesOf_parent s :
  forall p n, In n (nodesOf p s) ->
    n = mkNode s p \/ exists q, parent n = Some q /\ In q (nodesOf p s).
Proof.
  induction s as [i t r l cs IH] using Syntax_tree_ind. intros p n.
  rewrite nodesOf_cons. set (node := mkNode _ p). cbn [children].
  intros [<-|Hin]; [left; reflexivity | right].
  apply in_flat_map in Hin as (c & Hc & Hn).
  rewrite Forall_forall in IH.
  destruct (IH c ltac:(apply list_elem_of_In; exact Hc) _ _ Hn) as [->|(q & Hq & Hin)].
  - exists node. split; [reflexivity | left; reflexivity].
  - exists q. split; [exact Hq|]. right. apply in_flat_map. eauto.
Qed.

(** The children of a node of the tree are in the tree. *)
Lemma nodesOf_child s :
  forall p n c, In n (nodesOf p s) -> In c (children (syntax n)) ->
    In (child n c) (nodesOf p s).
Proof.
  induction s as [i t r l cs IH] using Syntax_tree_ind. intros p n c.
  rewrite nodesOf_cons. set (node := mkNode _ p). cbn [children].
  rewrite Forall_forall in IH.
  intros [<-|Hin] Hc; right; apply in_flat_map.
  - exists c. split; [exact Hc|]. rewrite nodesOf_cons. left. reflexivity.
  - apply in_flat_map in Hin as (c' & Hc' & Hn). exists c'. split; [exact Hc'|].
    apply (IH c' ltac:(apply list_elem_of_In; exact Hc')); assumption.
Qed.

Lemma field_child key n x :
  field key n = Some x -> exists c, In c (children (syntax n)) /\ x = child n c.
Proof.
  unfold field. destruct (List.find _ _) as [c|] eqn:E; [|discriminate].
  intros [= <-]. apply find_some in E as [Hin _]. eauto.
Qed.

Lemma fields_child key n x :
  In x (fields key n) -> exists c, In c (children (syntax n)) /\ x = child n c.
Proof.
  unfold fields. intros H. apply in_map_iff in H as (c & <- & Hc).
  apply filter_In in Hc as [Hc _]. eauto.
Qed.

Lemma nodesOf_field s p n key x :
  In n (nodesOf p s) -> field key n = Some x -> In x (nodesOf p s).
Proof.
  intros Hn Hx. apply field_child in Hx as (c & Hc & ->).
  apply nodesOf_child; assumption.
Qed.

Lemma nodesOf_fields s p n key x :
  In n (nodesOf p s) -> In x (fields key n) -> In x (nodesOf p s).
Proof.
  intros Hn Hx. apply fields_child in Hx as (c & Hc & ->).
  apply nodesOf_child; assumption.
Qed.

Lemma field_parent key n x : field key n = Some x -> parent x = Some n.
Proof. intros H. apply field_child in H as (c & _ & ->). reflexivity. Qed.

(** The nearest enclosing function of a node of the tree comes before it in
    document order, unless it lies above the tree. *)
Lemma enclosing_precedes s :
  forall p r g, In r (nodesOf p s) -> enclosingFunction r = Some g ->
    In g (stackAt p)
    \/ exists a b, nodesOf p s = a ++ g :: b /\ In r b.
Proof.
  induction s as [i t rg l cs IH] using Syntax_tree_ind. intros p r g.
  rewrite nodesOf_cons. set (node := mkNode _ p). cbn [children].
  intros [<-|Hin] Hg.
  - left. rewrite <- last_stackAt in Hg. change (parent node) with p in Hg.
    apply last_Some in Hg as [l' ->]. apply in_or_app. right. left. reflexivity.
  - assert (Hflat :
      In g (stackAt (Some node))
      \/ exists a b,
           List.flat_map (fun c => nodesOf (Some node) c.2) cs = a ++ g :: b
           /\ In r b).
    { clearbody node. clear -IH Hin Hg.
      induction IH as [|c cs Hc _ IHcs]; [destruct Hin|].
      cbn [List.flat_map] in *. apply in_app_or in Hin as [Hin|Hin].
      - destruct (Hc _ _ _ Hin Hg) as [Habove|(a & b & E & Hb)]; [left; exact Habove|].
        right. exists a, (b ++ List.flat_map (fun c => nodesOf (Some node) c.2) cs).
        split; [rewrite E, <- app_assoc; reflexivity | apply in_or_app; left; exact Hb].
      - destruct (IHcs Hin) as [Habove|(a & b & E & Hb)]; [left; exact Habove|].
        right. exists (nodesOf (Some node) c.2 ++ a), b.
        split; [rewrite E, <- app_assoc; reflexivity | exact Hb]. }
    destruct Hflat as [Habove|(a & b & E & Hb)].
    + rewrite stackAt_child in Habove. change (parent node) with p in Habove.
      apply in_app_or in Habove as [Habove|Hnode]; [left; exact Habove|].
      destruct (isFunction node); [|destruct Hnode].
      destruct Hnode as [<-|[]]. right.
      exists [], (List.flat_map (fun c => nodesOf (Some node) c.2) cs).
      split; [reflexivity|exact Hin].
    + right. exists (node :: a), b. split; [rewrite E; reflexivity | exact Hb].
Qed.

(** ** Reading the collected metadata *)

Lemma ownedBy_app f l1 l2 : ownedBy f (l1 ++ l2) = ownedBy f l1 ++ ownedBy f l2.
Proof. apply List.filter_app. Qed.

Lemma collectNode_lookup context m n f :
  (isFunction n = true -> nodeId n <> nodeId f) ->
  collectNode context m n !! nodeId f
  = (fun info => mkFunctionInfo (returnStatements info ++ ownedBy f [n]) (scope info))
      <$> (m !! nodeId f).
Proof.
  intros Hne.
  assert (Hkeep : m !! nodeId f
    = (fun info => mkFunctionInfo (returnStatements info ++ []) (scope info))
        <$> (m !! nodeId f)).
  { destruct (m !! nodeId f) as [[rs sc]|]; cbn; rewrite ?app_nil_r; reflexivity. }
  unfold collectNode, ownedBy. cbn [List.filter].
  destruct (isFunction n) eqn:Hfun.
  - rewrite (isFunction_not_return _ Hfun). cbn [andb].
    rewrite lookup_insert_ne by (apply Hne; reflexivity). exact Hkeep.
  - destruct (isReturnStatement n); cbn [andb]; [|exact Hkeep].
    destruct (enclosingFunction n) as [g|]; cbn [isNode]; [|exact Hkeep].
    unfold sameNode. destruct (Nat.eqb_spec (nodeId g) (nodeId f)) as [E|E].
    + rewrite E. destruct (m !! nodeId f) as [info|] eqn:Hinfo; cbn.
      * rewrite lookup_insert_eq. reflexivity.
      * exact Hinfo.
    + destruct (m !! nodeId g); [rewrite lookup_insert_ne by exact E|]; exact Hkeep.
Qed.

Lemma collect_lookup context l : forall m f,
  (forall n, In n l -> isFunction n = true -> nodeId n <> nodeId f) ->
  collect context l m !! nodeId f
  = (fun info => mkFunctionInfo (returnStatements info ++ ownedBy f l) (scope info))
      <$> (m !! nodeId f).
Proof.
  induction l as [|n l IH]; intros m f Hne.
  - cbn. destruct (m !! nodeId f) as [[rs sc]|]; cbn; rewrite ?app_nil_r; reflexivity.
  - rewrite collect_cons.
    rewrite IH by (intros; apply Hne; [right|]; assumption).
    rewrite collectNode_lookup by (apply Hne; left; reflexivity).
    change (n :: l) with ([n] ++ l). rewrite ownedBy_app.
    destruct (m !! nodeId f) as [[rs sc]|]; cbn; rewrite ?app_assoc; reflexivity.
Qed.

Lemma NoDup_map_injective {A B} (h : A -> B) (l : list A) x y :
  NoDup (List.map h l) -> In x l -> In y l -> h x = h y -> x = y.
Proof.
  induction l as [|a l IH]; cbn; [intros _ []|].
  intros Hnd Hx Hy E. apply NoDup_cons in Hnd as [Hnotin Hnd].
  destruct Hx as [->|Hx], Hy as [->|Hy]; [reflexivity | | |].
  - exfalso. apply Hnotin. rewrite E. apply list_elem_of_In, in_map, Hy.
  - exfalso. apply Hnotin. rewrite <- E. apply list_elem_of_In, in_map, Hx.
  - apply IH; assumption.
Qed.

Lemma NoDup_split_unique {A} (l1 l2 a b : list A) x :
  NoDup (l1 ++ x :: l2) -> l1 ++ x :: l2 = a ++ x :: b -> l1 = a /\ l2 = b.
Proof.
  revert a. induction l1 as [|y l1 IH]; intros a Hnd E.
  - destruct a as [|z a]; cbn in E.
    + injection E as ->. split; reflexivity.
    + injection E as -> ->. apply NoDup_cons in Hnd as [Hnotin _].
      exfalso. apply Hnotin, list_elem_of_In, in_or_app. right. left. reflexivity.
  - destruct a as [|z a]; cbn in E.
    + injection E as -> <-. apply NoDup_cons in Hnd as [Hnotin _].
      exfalso. apply Hnotin, list_elem_of_In, in_or_app. right. left. reflexivity.
    + injection E as -> E. cbn in Hnd. apply NoDup_cons in Hnd as [_ Hnd].
      destruct (IH a Hnd E) as [-> ->]. split; reflexivity.
Qed.

Lemma ownedBy_before program f l1 l2 :
  NoDup (List.map nodeId (nodesOf None program)) ->
  nodesOf None program = l1 ++ f :: l2 ->
  ownedBy f l1 = [].
Proof.
  intros Hnd E.
  assert (Hnone : forall r, ~ In r (ownedBy f l1)).
  { intros r Hr. apply filter_In in Hr as [Hr Howned].
    apply andb_prop in Howned as [_ Howned].
    destruct (enclosingFunction r) as [g|] eqn:Hg; [|discriminate].
    cbn [isNode] in Howned. apply Nat.eqb_eq in Howned.
    assert (Hrn : In r (nodesOf None program))
      by (rewrite E; apply in_or_app; left; exact Hr).
    destruct (enclosing_precedes program None r g Hrn Hg) as [[]|(a & b & Eg & Hb)].
    assert (g = f) as ->.
    { apply (NoDup_map_injective nodeId (nodesOf None program)); [exact Hnd| | |exact Howned].
      - rewrite Eg. apply in_or_app. right. left. reflexivity.
      - rewrite E. apply in_or_app. right. left. reflexivity. }
    pose proof (NoDup_fmap_1 nodeId (nodesOf None program) Hnd) as Hnodes.
    rewrite E in Hnodes.
    rewrite E in Eg. destruct (NoDup_split_unique _ _ _ _ _ Hnodes Eg) as [_ <-].
    apply NoDup_app in Hnodes as (_ & Hdisjoint & _).
    apply (Hdisjoint r); apply list_elem_of_In; [exact Hr | right; exact Hb]. }
  destruct (ownedBy f l1) as [|r rest]; [reflexivity|].
  exfalso. apply (Hnone r). left. reflexivity.
Qed.

Lemma collected_returns imports context program f :
  NoDup (List.map nodeId (nodesOf None program)) ->
  In f (nodesOf None program) -> isFunction f = true ->
  functionInfo (visited imports context [] (nodesOf None program) initialState)
    !! nodeId f
  = Some (mkFunctionInfo (ownedBy f (nodesOf None program)) (getScope context f)).
Proof.
  intros Hnd Hf Hfun. cbn [visited functionInfo initialState].
  destruct (in_split _ _ Hf) as (l1 & l2 & E).
  assert (Hl2 : forall n, In n l2 -> isFunction n = true -> nodeId n <> nodeId f).
  { intros n Hn _ Heq. rewrite E, List.map_app in Hnd. cbn [List.map] in Hnd.
    apply NoDup_app in Hnd as (_ & _ & Hnd). apply NoDup_cons in Hnd as [Hnotin _].
    apply Hnotin, list_elem_of_In. rewrite <- Heq. apply in_map, Hn. }
  pose proof (ownedBy_before program f l1 l2 Hnd E) as Hbefore.
  rewrite E, collect_app, collect_cons.
  rewrite (collect_lookup context l2 _ f Hl2), (collectNode_function _ _ _ Hfun).
  rewrite lookup_insert_eq. cbn [fmap option_fmap option_map returnStatements scope].
  change (f :: l2) with ([f] ++ l2). rewrite !ownedBy_app, Hbefore.
  unfold ownedBy at 2. cbn [List.filter]. rewrite (isFunction_not_return _ Hfun).
  reflexivity.
Qed.

(** ** What a fixable call site looks like *)

Section Fixability.
Context (imports : Imports) (context : Context).

Lemma isFixable_inv callExpression scope functionInfo allIdentifiers :
  isFixable imports callExpression scope functionInfo allIdentifiers context
  = Some true ->
  exists callParent callback info,
    parent callExpression = Some callParent
    /\ (typeName callParent = "ExpressionStatement"
        \/ typeName callParent = "ChainExpression")
    /\ optional callExpression = false
    /\ arguments callExpression = [callback]
    /\ isFunction callback = true
    /\ (length (params callback) = 1 \/ length (params callback) = 2)
    /\ isFunctionParametersSafeToFix imports callback context scope callExpression
         allIdentifiers = true
    /\ functionInfo !! nodeId callback = Some info
    /\ existsb (fun returnStatement =>
                  isReturnStatementInContinueAbleNodes returnStatement callback)
         (returnStatements info) = false.
Proof.
  unfold isFixable. intros H.
  destruct (optional callExpression || _ || _) eqn:H1; [discriminate|].
  apply orb_false_elim in H1 as [H1 Hlen]. apply orb_false_elim in H1 as [Hopt _].
  apply negb_false_iff, Nat.eqb_eq in Hlen.
  destruct (parent callExpression) as [callParent|]; [|discriminate].
  cbn [mbind option_bind] in H.
  destruct (negb (String.eqb (typeName callParent) "ExpressionStatement") && _)
    eqn:H2; [discriminate|].
  destruct (arguments callExpression) as [|callback [|]] eqn:Hargs; try discriminate Hlen.
  cbn [head mbind option_bind] in H.
  destruct ((negb _ && negb _) || async callback || generator callback) eqn:H3;
    [discriminate|].
  destruct (negb _ || existsb _ (params callback) || negb _) eqn:H4; [discriminate|].
  destruct (functionInfo !! nodeId callback) as [[returns callbackScope]|] eqn:Hinfo;
    [|discriminate].
  cbn [mbind option_bind] in H.
  destruct (existsb _ returns) eqn:H5; [discriminate|].
  exists callParent, callback, (mkFunctionInfo returns callbackScope).
  apply orb_false_elim in H3 as [H3 _]. apply orb_false_elim in H3 as [H3 _].
  apply orb_false_elim in H4 as [H4 Hsafe]. apply orb_false_elim in H4 as [H4 _].
  apply negb_false_iff in Hsafe, H4.
  repeat split; try assumption; try reflexivity.
  - apply andb_false_iff in H2 as [H2|H2]; apply negb_false_iff, String.eqb_eq in H2;
      [left | right]; exact H2.
  - unfold isFunction.
    apply andb_false_iff in H3 as [H3|H3]; apply negb_false_iff in H3; rewrite H3;
      rewrite ?orb_true_r; reflexivity.
  - apply orb_prop in H4 as [H4|H4]; apply Nat.eqb_eq in H4; [left | right]; exact H4.
Qed.

(** On a call expression below the root whose callback, if it is a
    function, has its metadata recorded, the analysis does not throw. *)
Lemma isFixable_total callExpression scope functionInfo allIdentifiers :
  is_Some (parent callExpression) ->
  (forall callback, In callback (arguments callExpression) ->
     isFunction callback = true -> is_Some (functionInfo !! nodeId callback)) ->
  is_Some (isFixable imports callExpression scope functionInfo allIdentifiers context).
Proof.
  intros [callParent Hparent] Hinfo. unfold isFixable.
  destruct (optional callExpression || _ || _) eqn:H1; [eauto|].
  apply orb_false_elim in H1 as [_ Hlen]. apply negb_false_iff, Nat.eqb_eq in Hlen.
  rewrite Hparent. cbn [mbind option_bind].
  destruct (negb (String.eqb (typeName callParent) "ExpressionStatement") && _);
    [eauto|].
  destruct (arguments callExpression) as [|callback [|]] eqn:Hargs; try discriminate Hlen.
  cbn [head mbind option_bind].
  destruct ((negb _ && negb _) || async callback || generator callback) eqn:H3; [eauto|].
  destruct (negb _ || existsb _ (params callback) || negb _); [eauto|].
  destruct (Hinfo callback) as [[returns callbackScope] ->]; [left; reflexivity| |].
  - apply orb_false_elim in H3 as [H3 _]. apply orb_false_elim in H3 as [H3 _].
    unfold isFunction.
    apply andb_false_iff in H3 as [H3|H3]; apply negb_false_iff in H3; rewrite H3;
      rewrite ?orb_true_r; reflexivity.
  - cbn [mbind option_bind].
    destruct (existsb _ returns); [eauto|].
    destruct (isFunctionSelfUsedInside imports callback callbackScope); eauto.
Qed.
End Fixability.

(** ** Reporting *)

Lemma mapM_Forall2 {A B C} (f : B -> option C) (g : A -> B) (R : A -> C -> Prop) l :
  (forall x, In x l -> exists y, f (g x) = Some y /\ R x y) ->
  exists k, mapM f (List.map g l) = Some k /\ Forall2 R l k.
Proof.
  induction l as [|x l IH]; intros H.
  - exists []. split; [reflexivity | constructor].
  - destruct (H x (or_introl eq_refl)) as (y & Hy & HR).
    destruct IH as (k & Hk & HF); [intros; apply H; right; assumption|].
    exists (y :: k). split; [|constructor; assumption].
    cbn. rewrite Hy. cbn. rewrite Hk. reflexivity.
Qed.

Lemma selector_call n :
  arrayForEachCallSelector n = true -> typeName n = "CallExpression".
Proof.
  unfold arrayForEachCallSelector. intros H. apply andb_prop in H as [H _].
  apply String.eqb_eq, H.
Qed.

Lemma below_root program n :
  In n (nodesOf None program) ->
  typeName n <> typeName (mkNode program None) ->
  exists q, parent n = Some q /\ In q (nodesOf None program).
Proof.
  intros Hn Hne. destruct (nodesOf_parent program None n Hn) as [->|H]; [|exact H].
  exfalso. apply Hne. reflexivity.
Qed.

Lemma functionsHaveBody_field program f :
  functionsHaveBody program = true -> In f (nodesOf None program) ->
  isFunction f = true -> is_Some (field "body" f).
Proof.
  unfold functionsHaveBody. rewrite forallb_forall. intros H Hf Hfun.
  specialize (H f Hf). rewrite Hfun in H. cbn in H.
  apply bool_decide_eq_true in H. exact H.
Qed.

Section Reporting.
Context (imports : Imports) (context : Context) (program : Syntax).
Hypothesis Hroot : typeName (mkNode program None) = "Program".
Hypothesis Hbodies : functionsHaveBody program = true.

Local Abbreviation nodes := (nodesOf None program).
Local Abbreviation st := (visited imports context [] nodes initialState).

Lemma reported_isFixable_total n :
  In n nodes -> arrayForEachCallSelector n = true ->
  is_Some (isFixable imports n (getScope context n) (functionInfo st)
             (allIdentifiers st) context).
Proof.
  intros Hn Hsel. apply isFixable_total.
  - destruct (below_root program n Hn) as (q & -> & _); [|eauto].
    rewrite (selector_call _ Hsel), Hroot. discriminate.
  - intros callback Hcb Hfun. apply collect_function_is_Some; [|exact Hfun].
    apply (nodesOf_fields program None n "arguments"); assumption.
Qed.

Lemma fixable_getFixFunction_total n :
  In n nodes -> arrayForEachCallSelector n = true ->
  isFixable imports n (getScope context n) (functionInfo st) (allIdentifiers st)
    context = Some true ->
  is_Some (getFixFunction imports n (functionInfo st) context).
Proof.
  intros Hn Hsel Hfix.
  destruct (isFixable_inv _ _ _ _ _ _ Hfix)
    as (callParent & callback & info & Hparent & Htype & _ & Hargs & Hfun & _ & _
        & Hinfo & _).
  destruct (selector_callee n Hsel) as (callee & object & property & Hc & Ho & _).
  assert (Hcb : In callback nodes).
  { apply (nodesOf_fields program None n "arguments"); [exact Hn|].
    fold (arguments n). rewrite Hargs. left. reflexivity. }
  destruct (functionsHaveBody_field program callback Hbodies Hcb Hfun) as [body Hbody].
  destruct (below_root program n Hn) as (q & Hq & Hqn).
  { rewrite (selector_call _ Hsel), Hroot. discriminate. }
  rewrite Hparent in Hq. injection Hq as <-.
  destruct (below_root program callParent Hqn) as (statementParent & Hsp & _).
  { rewrite Hroot. destruct Htype as [-> | ->]; discriminate. }
  unfold getFixFunction. rewrite Hargs. cbn [head mbind option_bind].
  rewrite Hc. cbn [mbind option_bind]. rewrite Ho. cbn [mbind option_bind].
  rewrite Hinfo. cbn [mbind option_bind]. rewrite Hbody. cbn [mbind option_bind].
  rewrite Hparent. cbn [mbind option_bind]. rewrite Hsp. cbn [mbind option_bind].
  eauto.
Qed.

Lemma programExit_spec :
  exists problems,
    programExit imports context st = Some problems
    /\ Forall2 (fun n problem =>
         field "callee" n ≫= field "property" = Some (problemNode problem)
         /\ messageId problem = MESSAGE_ID
         /\ (is_Some (problemFix problem)
             <-> isFixable imports n (getScope context n) (functionInfo st)
                   (allIdentifiers st) context = Some true))
         (List.filter (isReported imports) nodes) problems.
Proof.
  unfold programExit.
  change (callExpressions st)
    with (List.map (callSiteOf context) (List.filter (isReported imports) nodes)).
  apply mapM_Forall2. intros n Hn.
  apply filter_In in Hn as [Hn Hrep]. unfold isReported in Hrep.
  apply andb_prop in Hrep as [Hsel _].
  destruct (selector_callee n Hsel) as (callee & object & property & Hc & _ & Hp).
  cbn [callSiteOf callNode callScope]. rewrite Hc. cbn [mbind option_bind].
  rewrite Hp. cbn [mbind option_bind].
  destruct (reported_isFixable_total n Hn Hsel) as [[|] Hfix]; rewrite Hfix;
    cbn [mbind option_bind].
  - destruct (fixable_getFixFunction_total n Hn Hsel Hfix) as [patch ->].
    cbn [fmap option_fmap option_map mbind option_bind].
    eexists. split; [reflexivity|]. cbn. repeat split; eauto.
  - eexists. split; [reflexivity|]. cbn. repeat split.
    + intros [? ?]. discriminate.
    + discriminate.
Qed.
End Reporting.

(** * The claims *)

(** C1: linting a program never throws and yields exactly one diagnostic
    for every matched [forEach] call whose receiver is not in the allowlist,
    in document order and for no other node: the diagnostic is located at
    the method-name node [callee.property], carries the rule's message, and
    has a patch attached if and only if [isFixable] accepts the call site.
    A matched call whose receiver is in the allowlist is not among the
    reported nodes, so it gets no diagnostic. *)
Theorem one_diagnostic_per_call_site imports context program :
  typeName (mkNode program None) = "Program" ->
  functionsHaveBody program = true ->
  exists st problems,
    traverse imports context None program initialState = Some st
    /\ lint imports context program = Some problems
    /\ Forall2 (fun n problem =>
         field "callee" n ≫= field "property" = Some (problemNode problem)
         /\ messageId problem = MESSAGE_ID
         /\ (is_Some (problemFix problem)
             <-> isFixable imports n (getScope context n) (functionInfo st)
                   (allIdentifiers st) context = Some true))
         (List.filter (isReported imports) (nodesOf None program)) problems
    /\ forall n callee object,
         field "callee" n = Some callee -> field "object" callee = Some object ->
         isReported imports n
         = arrayForEachCallSelector n
           && negb (isNodeMatches imports object ignoredObjects).
Proof.
  intros Hroot Hbodies.
  destruct (programExit_spec imports context program Hroot Hbodies)
    as (problems & Hexit & Hall).
  exists (visited imports context [] (nodesOf None program) initialState), problems.
  split; [apply traverse_program|].
  split; [unfold lint; rewrite traverse_program; exact Hexit|].
  split; [exact Hall|].
  intros n callee object Hc Ho. unfold isReported. rewrite Hc. cbn. rewrite Ho.
  reflexivity.
Qed.

Lemma one_diagnostic_per_call_site_witness :
  exists st problems,
    traverse (Sample.imports ReturnInIf.resolve) ReturnInIf.context None
      ReturnInIf.program initialState = Some st
    /\ lint (Sample.imports ReturnInIf.resolve) ReturnInIf.context
         ReturnInIf.program = Some problems
    /\ Forall2 (fun n problem =>
         field "callee" n ≫= field "property" = Some (problemNode problem)
         /\ messageId problem = MESSAGE_ID
         /\ (is_Some (problemFix problem)
             <-> isFixable (Sample.imports ReturnInIf.resolve) n
                   (getScope ReturnInIf.context n) (functionInfo st)
                   (allIdentifiers st) ReturnInIf.context = Some true))
         (List.filter (isReported (Sample.imports ReturnInIf.resolve))
            (nodesOf None ReturnInIf.program)) problems
    /\ forall n callee object,
         field "callee" n = Some callee -> field "object" callee = Some object ->
         isReported (Sample.imports ReturnInIf.resolve) n
         = arrayForEachCallSelector n
           && negb (isNodeMatches (Sample.imports ReturnInIf.resolve) object
                      ignoredObjects).
Proof.
  apply (one_diagnostic_per_call_site (Sample.imports ReturnInIf.resolve)
           ReturnInIf.context ReturnInIf.program); reflexivity.
Defined.

(** C9: the traversal, which enters every node once in document order,
    never throws and leaves the nesting stack empty; the identifiers and the
    call sites are recorded in document order; and the metadata of every
    function holds exactly the return statements whose nearest enclosing
    function it is, each once and in document order -- so a return
    statement is never recorded for an outer function. *)
Theorem returns_attributed_to_enclosing_function imports context program :
  NoDup (List.map nodeId (nodesOf None program)) ->
  exists st,
    traverse imports context None program initialState = Some st
    /\ functionStack st = []
    /\ allIdentifiers st
       = List.filter (referenceIdentifierSelector imports) (nodesOf None program)
    /\ callExpressions st
       = List.map (callSiteOf context)
           (List.filter (isReported imports) (nodesOf None program))
    /\ forall f, In f (nodesOf None program) -> isFunction f = true ->
         functionInfo st !! nodeId f
         = Some (mkFunctionInfo (ownedBy f (nodesOf None program))
                   (getScope context f)).
Proof.
  intros Hnd.
  exists (visited imports context [] (nodesOf None program) initialState).
  split; [apply traverse_program|]. repeat split.
  intros f Hf Hfun. apply collected_returns; assumption.
Qed.

Lemma returns_attributed_to_enclosing_function_witness :
  NoDup (List.map nodeId (nodesOf None NestedReturn.program))
  /\ exists st,
       traverse (Sample.imports NestedReturn.resolve) NestedReturn.context None
         NestedReturn.program initialState = Some st
       /\ functionStack st = []
       /\ allIdentifiers st
          = List.filter
              (referenceIdentifierSelector (Sample.imports NestedReturn.resolve))
              (nodesOf None NestedReturn.program)
       /\ callExpressions st
          = List.map (callSiteOf NestedReturn.context)
              (List.filter (isReported (Sample.imports NestedReturn.resolve))
                 (nodesOf None NestedReturn.program))
       /\ forall f, In f (nodesOf None NestedReturn.program) -> isFunction f = true ->
            functionInfo st !! nodeId f
            = Some (mkFunctionInfo (ownedBy f (nodesOf None NestedReturn.program))
                      (getScope NestedReturn.context f)).
Proof.
  assert (Hnd : NoDup (List.map nodeId (nodesOf None NestedReturn.program))).
  { apply (bool_decide_unpack _). vm_compute. exact I. }
  split; [exact Hnd|].
  apply (returns_attributed_to_enclosing_function
           (Sample.imports NestedReturn.resolve) NestedReturn.context
           NestedReturn.program Hnd).
Defined.

(** ** The parameter check *)

Lemma optionStringEqb_eq a b : optionStringEqb a b = true <-> a = b.
Proof.
  destruct a as [x|], b as [y|]; cbn; try (split; [discriminate | intros [=]]).
  - rewrite String.eqb_eq. split; [intros ->; reflexivity | intros [=]; assumption].
  - split; reflexivity.
Qed.

Lemma identifiersAreSafe_false imports scope variableName array allIdentifiers :
  identifiersAreSafe imports scope variableName (nodeRange array).1
    (nodeRange array).2 allIdentifiers = false
  <-> exists identifier,
        In identifier allIdentifiers
        /\ name identifier = variableName
        /\ inRange array identifier = true
        /\ resolvesOutside imports scope identifier = true.
Proof.
  induction allIdentifiers as [|identifier rest IH]; cbn [identifiersAreSafe].
  - split; [discriminate | intros (? & [] & _)].
  - unfold inRange, resolvesOutside in *.
    destruct (nodeRange identifier) as [start end_] eqn:Hrange. cbn [fst snd] in *.
    destruct (optionStringEqb (name identifier) variableName) eqn:Hname; cbn [negb orb].
    + apply optionStringEqb_eq in Hname.
      destruct (Nat.ltb start (nodeRange array).1 || Nat.ltb (nodeRange array).2 end_)
        eqn:Hout.
      * rewrite IH. split.
        -- intros (i & Hi & H). exists i. split; [right; exact Hi | exact H].
        -- intros (i & [<-|Hi] & Hn & Hin & Hres); [|eauto].
           rewrite Hrange in Hin. cbn [fst snd] in Hin. rewrite Hout in Hin.
           discriminate Hin.
      * destruct (findVariable imports scope identifier) as [variable|] eqn:Hfind.
        -- destruct (sameScope (varScope variable) scope
                     || isChildScope scope (varScope variable)) eqn:Hscope.
           ++ split; [intros _ | reflexivity].
              exists identifier. rewrite Hrange, Hfind. cbn [fst snd].
              rewrite Hout. repeat split; try assumption. left. reflexivity.
           ++ rewrite IH. split.
              ** intros (i & Hi & H). exists i. split; [right; exact Hi | exact H].
              ** intros (i & [<-|Hi] & Hn & Hin & Hres); [|eauto].
                 rewrite Hfind, Hscope in Hres. discriminate Hres.
        -- split; [intros _ | reflexivity].
           exists identifier. rewrite Hrange, Hfind. cbn [fst snd].
           rewrite Hout. repeat split; try assumption. left. reflexivity.
    + rewrite IH. split.
      * intros (i & Hi & H). exists i. split; [right; exact Hi | exact H].
      * intros (i & [<-|Hi] & Hn & Hin & Hres); [|eauto].
        rewrite <- optionStringEqb_eq in Hn. congruence.
Qed.

Lemma identifiersAreSafe_inRange imports scope variableName array allIdentifiers :
  identifiersAreSafe imports scope variableName (nodeRange array).1
    (nodeRange array).2 allIdentifiers
  = identifiersAreSafe imports scope variableName (nodeRange array).1
      (nodeRange array).2 (List.filter (inRange array) allIdentifiers).
Proof.
  induction allIdentifiers as [|identifier rest IH]; [reflexivity|].
  cbn [List.filter]. unfold inRange at 1.
  destruct (nodeRange identifier) as [start end_] eqn:Hrange. cbn [fst snd].
  destruct (Nat.ltb start (nodeRange array).1 || Nat.ltb (nodeRange array).2 end_)
    eqn:Hout; cbn [negb identifiersAreSafe]; rewrite Hrange.
  - rewrite <- orb_assoc, Hout, orb_true_r. exact IH.
  - rewrite <- orb_assoc, Hout, IH. reflexivity.
Qed.

Lemma variablesAreSafe_false imports scope array allIdentifiers variables :
  variablesAreSafe imports scope array allIdentifiers variables = false
  <-> exists variable,
        In variable variables
        /\ ((forall definition, defs variable <> [definition])
            \/ exists definition identifier,
                 defs variable = [definition]
                 /\ defType definition = "Parameter"
                 /\ In identifier allIdentifiers
                 /\ name identifier = name (defName definition)
                 /\ inRange array identifier = true
                 /\ resolvesOutside imports scope identifier = true).
Proof.
  induction variables as [|variable rest IH]; cbn [variablesAreSafe].
  - split; [discriminate | intros (? & [] & _)].
  - assert (Hrest :
      variablesAreSafe imports scope array allIdentifiers rest = false
      -> exists v, In v (variable :: rest)
           /\ ((forall definition, defs v <> [definition])
               \/ exists definition identifier,
                    defs v = [definition]
                    /\ defType definition = "Parameter"
                    /\ In identifier allIdentifiers
                    /\ name identifier = name (defName definition)
                    /\ inRange array identifier = true
                    /\ resolvesOutside imports scope identifier = true)).
    { intros H. apply IH in H as (v & Hv & H). exists v. split; [right; exact Hv|exact H]. }
    destruct (defs variable) as [|definition [|second more]] eqn:Hdefs.
    + split; [intros _ | reflexivity]. exists variable.
      split; [left; reflexivity | left]. rewrite Hdefs. discriminate.
    + destruct (String.eqb (defType definition) "Parameter") eqn:Htype; cbn [negb].
      * apply String.eqb_eq in Htype.
        destruct (nodeRange array) as [arrayStart arrayEnd] eqn:Harray.
        pose proof (identifiersAreSafe_false imports scope (name (defName definition))
                      array allIdentifiers) as Hids.
        rewrite Harray in Hids. cbn [fst snd] in Hids.
        destruct (identifiersAreSafe imports scope (name (defName definition))
                    arrayStart arrayEnd allIdentifiers) eqn:Hsafe.
        -- split; [exact Hrest|].
           intros (v & [<-|Hv] & H); [|apply IH; eauto].
           destruct H as [H|(d & i & Hd & _ & Hi & Hn & Hin & Hres)].
           ++ exfalso. apply (H definition). exact Hdefs.
           ++ rewrite Hdefs in Hd. injection Hd as <-.
              destruct Hids as [_ Hids].
              assert (Hbad : true = false)
                by (apply Hids; exists i; repeat split; assumption).
              discriminate Hbad.
        -- split; [intros _ | reflexivity].
           destruct Hids as [Hids _]. destruct (Hids eq_refl) as (i & Hi & Hn & Hin & Hres).
           exists variable. split; [left; reflexivity | right].
           exists definition, i. rewrite Hdefs. repeat split; assumption.
      * split; [exact Hrest|].
        intros (v & [<-|Hv] & H); [|apply IH; eauto].
        destruct H as [H|(d & i & Hd & Ht & _)].
        -- exfalso. apply (H definition). exact Hdefs.
        -- rewrite Hdefs in Hd. injection Hd as <-. apply String.eqb_eq in Ht.
           congruence.
    + split; [intros _ | reflexivity]. exists variable.
      split; [left; reflexivity | left]. rewrite Hdefs. discriminate.
Qed.

Lemma variablesAreSafe_inRange imports scope array allIdentifiers variables :
  variablesAreSafe imports scope array allIdentifiers variables
  = variablesAreSafe imports scope array (List.filter (inRange array) allIdentifiers)
      variables.
Proof.
  induction variables as [|variable rest IH]; [reflexivity|]. cbn [variablesAreSafe].
  destruct (defs variable) as [|definition [|second more]]; try reflexivity.
  destruct (negb _); [exact IH|].
  pose proof (identifiersAreSafe_inRange imports scope (name (defName definition))
                array allIdentifiers) as Hids.
  destruct (nodeRange array) as [arrayStart arrayEnd]. cbn [fst snd] in Hids.
  rewrite <- Hids, IH. reflexivity.
Qed.

(** C2, as stated, fails on [foo.map(x => x).forEach(x => {})]: the [x]
    of the first callback is referenced outside the [forEach] callback and
    within the iterated-source expression [foo.map(x => x)], and resolves
    to the parameter of the first callback, whose scope is neither the scope
    of the [forEach] callback nor inside it; yet the call site is accepted. *)
Lemma parameter_check_counterexample :
  traverse (Sample.imports MapThenForEach.resolve) MapThenForEach.context None
    MapThenForEach.program initialState = Some MapThenForEach.state
  /\ arguments (MapThenForEach.nodeAt 2) = [MapThenForEach.nodeAt 12]
  /\ field "callee" (MapThenForEach.nodeAt 2) ≫= field "object"
     = Some (MapThenForEach.nodeAt 4)
  /\ functionInfo MapThenForEach.state !! 12
     = Some (mkFunctionInfo [] MapThenForEach.callbackScope)
  /\ ~ (isFixable (Sample.imports MapThenForEach.resolve) (MapThenForEach.nodeAt 2)
          (getScope MapThenForEach.context (MapThenForEach.nodeAt 2))
          (functionInfo MapThenForEach.state) (allIdentifiers MapThenForEach.state)
          MapThenForEach.context = Some false
        <-> capturedInIteratedSource (Sample.imports MapThenForEach.resolve)
              MapThenForEach.context
              (getScope MapThenForEach.context (MapThenForEach.nodeAt 2))
              MapThenForEach.callbackScope (MapThenForEach.nodeAt 12)
              (MapThenForEach.nodeAt 4) (allIdentifiers MapThenForEach.state)
            = true).
Proof.
  split_conjunctions; try (vm_compute; reflexivity).
  intros [_ H].
  assert (Hfixable :
    isFixable (Sample.imports MapThenForEach.resolve) (MapThenForEach.nodeAt 2)
      (getScope MapThenForEach.context (MapThenForEach.nodeAt 2))
      (functionInfo MapThenForEach.state) (allIdentifiers MapThenForEach.state)
      MapThenForEach.context = Some true) by (vm_compute; reflexivity).
  rewrite H in Hfixable; [discriminate Hfixable|]. vm_compute. reflexivity.
Qed.

(** C2 (amended): the parameter check of the fixability analysis rejects
    exactly when some variable declared by the callback has a number of
    definitions other than one, or some recorded identifier whose name is
    that of a callback parameter and whose range lies within the range the
    check is given resolves to no binding or to a binding of the scope of
    the call site or of a scope around it.  [isFixable] gives the check the
    range of the whole call expression.  Identifiers lying outside that
    range do not affect the decision. *)
Theorem parameter_check_rejects imports context callback scope callExpression
    allIdentifiers :
  (isFunctionParametersSafeToFix imports callback context scope callExpression
     allIdentifiers = false
   <-> exists variable,
         In variable (getDeclaredVariables context callback)
         /\ ((forall definition, defs variable <> [definition])
             \/ exists definition identifier,
                  defs variable = [definition]
                  /\ defType definition = "Parameter"
                  /\ In identifier allIdentifiers
                  /\ name identifier = name (defName definition)
                  /\ inRange callExpression identifier = true
                  /\ resolvesOutside imports scope identifier = true))
  /\ isFunctionParametersSafeToFix imports callback context scope callExpression
       allIdentifiers
     = isFunctionParametersSafeToFix imports callback context scope callExpression
         (List.filter (inRange callExpression) allIdentifiers).
Proof.
  unfold isFunctionParametersSafeToFix. split.
  - apply variablesAreSafe_false.
  - apply variablesAreSafe_inRange.
Qed.

(** ** The shape of a generated patch *)

(** Membership in a list written with [::] and [++]. *)
Ltac find_in :=
  solve [ left; reflexivity
        | right; find_in
        | apply in_or_app; left; find_in
        | apply in_or_app; right; find_in ].

Lemma fixFunction_inv imports callExpression context callback array body returns
    isOptionalChaining isBlockStatement indentedString edits :
  fixFunction imports callExpression context callback array body returns
    isOptionalChaining isBlockStatement indentedString = Some edits ->
  exists headText headRange penultimateToken lastToken returnEdits callParent
         statement statementLastToken wrap,
    getForOfLoopHeadText imports context callback array = Some headText
    /\ getForOfLoopHeadRange callExpression context body = Some headRange
    /\ getLastTokens (getSourceCode context) callExpression 2 !! 0
       = Some penultimateToken
    /\ getLastTokens (getSourceCode context) callExpression 2 !! 1 = Some lastToken
    /\ concatM (replaceReturnStatement imports context) returns = Some returnEdits
    /\ parent callExpression = Some callParent
    /\ (if isOptionalChaining then parent callParent else Some callParent)
       = Some statement
    /\ getLastToken (getSourceCode context) statement = Some statementLastToken
    /\ (if isOptionalChaining
        then wrapInIfStatement imports callExpression context body isBlockStatement
               indentedString
        else Some []) = Some wrap
    /\ edits
       = [fixer.replaceTextRange headRange
            (if isOptionalChaining
             then (if isBlockStatement
                   then indentedString +:+ indentString imports headText
                   else trimTrailingWhitespace
                          (indentedString +:+ indentString imports headText))
             else headText)]
         ++ removeCallbackParentheses imports context callback
         ++ (if isCommaToken penultimateToken
             then [fixer.remove penultimateToken] else [])
         ++ [fixer.remove lastToken]
         ++ returnEdits
         ++ (if shouldRemoveExpressionStatementLastToken body isOptionalChaining
                  statementLastToken
             then [fixer.remove statementLastToken] else [])
         ++ fixSpaceAroundKeyword imports callParent (getSourceCode context)
         ++ wrap
         ++ extendFixRange (nodeRange callParent).
Proof.
  unfold fixFunction. intros H.
  destruct (getForOfLoopHeadText _ _ _ _) as [headText|]; [|discriminate].
  cbn [mbind option_bind] in H.
  destruct (getForOfLoopHeadRange _ _ _) as [headRange|]; [|discriminate].
  cbn [mbind option_bind] in H.
  destruct (_ !! 0) as [penultimateToken|]; [|discriminate].
  cbn [mbind option_bind] in H.
  destruct (_ !! 1) as [lastToken|]; [|discriminate].
  cbn [mbind option_bind] in H.
  destruct (concatM _ _) as [returnEdits|]; [|discriminate].
  cbn [mbind option_bind] in H.
  destruct (parent callExpression) as [callParent|]; [|discriminate].
  cbn [mbind option_bind] in H.
  destruct (if isOptionalChaining then parent callParent else Some callParent)
    as [statement|] eqn:Hstatement; [|discriminate].
  cbn [mbind option_bind] in H.
  destruct (getLastToken _ statement) as [statementLastToken|] eqn:Hlast;
    [|discriminate].
  cbn [mbind option_bind] in H.
  destruct (if isOptionalChaining then _ else Some []) as [wrap|] eqn:Hwrap;
    [|discriminate].
  cbn [mbind option_bind] in H. injection H as <-.
  exists headText, headRange, penultimateToken, lastToken, returnEdits, callParent,
    statement, statementLastToken, wrap.
  split_conjunctions; try reflexivity; assumption.
Qed.


Lemma getFixFunction_inv imports callExpression functionInfo context patch :
  getFixFunction imports callExpression functionInfo context = Some patch ->
  exists callback callee array info body callParent statementParent,
    head (arguments callExpression) = Some callback
    /\ field "callee" callExpression = Some callee
    /\ field "object" callee = Some array
    /\ functionInfo !! nodeId callback = Some info
    /\ field "body" callback = Some body
    /\ parent callExpression = Some callParent
    /\ parent callParent = Some statementParent
    /\ patch
       = fixFunction imports callExpression context callback array body
           (returnStatements info) (optional callee)
           (String.eqb (typeName body) "BlockStatement")
           (getIndentString imports statementParent (getSourceCode context)).
Proof.
  unfold getFixFunction. intros H.
  destruct (head (arguments callExpression)) as [callback|]; [|discriminate].
  cbn [mbind option_bind] in H.
  destruct (field "callee" callExpression) as [callee|]; [|discriminate].
  cbn [mbind option_bind] in H.
  destruct (field "object" callee) as [array|] eqn:Harray; [|discriminate].
  cbn [mbind option_bind] in H.
  destruct (functionInfo !! nodeId callback) as [info|] eqn:Hinfo; [|discriminate].
  cbn [mbind option_bind] in H.
  destruct (field "body" callback) as [body|] eqn:Hbody; [|discriminate].
  cbn [mbind option_bind] in H.
  destruct (parent callExpression) as [callParent|]; [|discriminate].
  cbn [mbind option_bind] in H.
  destruct (parent callParent) as [statementParent|] eqn:Hparent; [|discriminate].
  cbn [mbind option_bind] in H. injection H as <-.
  exists callback, callee, array, info, body, callParent, statementParent.
  split_conjunctions; try reflexivity; assumption.
Qed.



(** ** The loop head *)

Lemma append_assoc (a b c : string) : (a +:+ b) +:+ c = a +:+ b +:+ c.
Proof.
  induction a as [|x a IH]; [reflexivity|].
  change (String x ((a +:+ b) +:+ c) = String x (a +:+ b +:+ c)). f_equal. exact IH.
Qed.

Lemma prefix_append s t : String.prefix s (s +:+ t) = true.
Proof.
  induction s as [|a s IH]; [destruct t; reflexivity|].
  change (String.prefix (String a s) (String a (s +:+ t)) = true).
  cbn [String.prefix]. destruct (ascii_dec a a); [exact IH | contradiction].
Qed.

Lemma someM_true {A} (p : A -> option bool) l :
  someM p l = Some true -> exists x, In x l /\ p x = Some true.
Proof.
  induction l as [|x l IH]; cbn; [discriminate|].
  destruct (p x) as [[|]|] eqn:Hx; cbn; try discriminate.
  - intros _. exists x. split; [left; reflexivity | exact Hx].
  - intros H. destruct (IH H) as (y & Hy & Hp). exists y. split; [right|]; assumption.
Qed.

Lemma someM_false {A} (p : A -> option bool) l :
  someM p l = Some false -> forall x, In x l -> p x = Some false.
Proof.
  induction l as [|x l IH]; cbn; [intros _ ? []|].
  destruct (p x) as [[|]|] eqn:Hx; cbn; try discriminate.
  intros H y [<-|Hy]; [exact Hx | apply IH; assumption].
Qed.

Lemma filterM_In {A} (p : A -> option bool) l kept :
  filterM p l = Some kept -> forall x, In x kept <-> In x l /\ p x = Some true.
Proof.
  revert kept. induction l as [|y l IH]; cbn; intros kept H x.
  - injection H as <-. split; [intros [] | intros [[] _]].
  - destruct (p y) as [b|] eqn:Hy; cbn in H; [|discriminate].
    destruct (filterM p l) as [kept'|]; cbn in H; [|discriminate].
    injection H as <-. specialize (IH kept' eq_refl x).
    destruct b; cbn; rewrite IH; split.
    + intros [<-|[Hx Hp]]; [split; [left; reflexivity | exact Hy] | split; [right|]; assumption].
    + intros [[<-|Hx] Hp]; [left; reflexivity | right; split; assumption].
    + intros [Hx Hp]. split; [right|]; assumption.
    + intros [[<-|Hx] Hp]; [congruence | split; assumption].
Qed.

Lemma reassignment_test reference :
  (parent ← parent (identifier reference);
   Some (String.eqb (typeName parent) "UpdateExpression"
         || (String.eqb (typeName parent) "AssignmentExpression"
             && isNode (field "left" parent) (identifier reference))))
  = Some true
  <-> isReassignment reference = true.
Proof.
  unfold isReassignment. destruct (parent (identifier reference)) as [p|]; cbn.
  - split; [intros [= H] | intros ->]; [exact H | reflexivity].
  - split; discriminate.
Qed.

Lemma isFunctionParameterVariableReassigned_spec callback context reassigned :
  isFunctionParameterVariableReassigned callback context = Some reassigned ->
  reassigned = true <-> parameterIsReassigned context callback.
Proof.
  unfold isFunctionParameterVariableReassigned, parameterIsReassigned.
  destruct (filterM _ _) as [variables|] eqn:Hfilter; cbn [mbind option_bind];
    [|discriminate].
  pose proof (filterM_In _ _ _ Hfilter) as Hkept. intros Hsome. split.
  - intros ->. apply someM_true in Hsome as (variable & Hv & Hrefs).
    apply someM_true in Hrefs as (reference & Hr & Htest).
    apply Hkept in Hv as [Hv Hparam].
    destruct (head (defs variable)) as [definition|] eqn:Hdef; [|discriminate].
    cbn in Hparam. injection Hparam as Hparam. apply String.eqb_eq in Hparam.
    exists variable, definition, reference. apply reassignment_test in Htest.
    repeat split; assumption.
  - intros (variable & definition & reference & Hv & Hdef & Hparam & Hr & Hre).
    destruct reassigned; [reflexivity | exfalso].
    assert (Hin : In variable variables).
    { apply Hkept. split; [exact Hv|]. rewrite Hdef. cbn.
      apply String.eqb_eq in Hparam. rewrite Hparam. reflexivity. }
    pose proof (someM_false _ _ Hsome variable Hin) as Hrefs.
    pose proof (someM_false _ _ Hrefs reference Hr) as Htest.
    apply reassignment_test in Hre. cbv zeta in Htest. congruence.
Qed.

Lemma getForOfLoopHeadText_inv imports context callback array text :
  getForOfLoopHeadText imports context callback array = Some text ->
  exists reassigned,
    isFunctionParameterVariableReassigned callback context = Some reassigned
    /\ text
       = "for (" +:+ (if reassigned : bool then "let" else "const") +:+ " "
         +:+ (if Nat.eqb (length (params callback)) 2
              then "["
                   +:+ templateText
                         (List.map (getText (getSourceCode context)) (params callback)
                          !! 1)
                   +:+ ", "
                   +:+ templateText
                         (List.map (getText (getSourceCode context)) (params callback)
                          !! 0)
                   +:+ "]"
              else templateText
                     (List.map (getText (getSourceCode context)) (params callback)
                      !! 0))
         +:+ " of "
         +:+ (if isParenthesized imports array (getSourceCode context)
              then "(" +:+ getText (getSourceCode context) array +:+ ")"
              else getText (getSourceCode context) array)
         +:+ (if Nat.eqb (length (params callback)) 2 then ".entries()" else "")
         +:+ ") ".
Proof.
  unfold getForOfLoopHeadText. cbv zeta.
  destruct (isFunctionParameterVariableReassigned callback context) as [reassigned|];
    [|discriminate].
  cbn [mbind option_bind]. intros [= <-]. exists reassigned. split; [reflexivity|].
  destruct (Nat.eqb (length (params callback)) 2); rewrite !append_assoc; reflexivity.
Qed.

(** C4: on [foo.forEach((x = 1) => {})] the call site is fixable, and the
    loop head binds the source text of the parameter, which here is the
    pattern [x = 1] with its default value and not an element name: the
    patch gives [for (const x = 1 of foo) {}], a loop whose binding has an
    initialiser. *)
Lemma loop_head_of_default_parameter :
  lint (Sample.imports DefaultParameter.resolve) DefaultParameter.context
    DefaultParameter.program
  = Some [mkProblem (DefaultParameter.nodeAt 5) MESSAGE_ID
            (Some (Some DefaultParameter.patch))]
  /\ params (DefaultParameter.nodeAt 6) = [DefaultParameter.nodeAt 7]
  /\ typeName (DefaultParameter.nodeAt 7) = "AssignmentPattern"
  /\ name (DefaultParameter.nodeAt 7) = None
  /\ getText DefaultParameter.sourceCode (DefaultParameter.nodeAt 7) = "x = 1"
  /\ getForOfLoopHeadText (Sample.imports DefaultParameter.resolve)
       DefaultParameter.context (DefaultParameter.nodeAt 6) (DefaultParameter.nodeAt 4)
     = Some "for (const x = 1 of foo) "
  /\ head DefaultParameter.patch = Some (mkEdit (0, 23) "for (const x = 1 of foo) ").
Proof.
  split_conjunctions; vm_compute; reflexivity.
Qed.

Lemma someM_is_Some {A} (p : A -> option bool) l :
  (forall x, In x l -> is_Some (p x)) -> is_Some (someM p l).
Proof.
  induction l as [|x l IH]; cbn [someM]; intros H; [eexists; reflexivity|].
  destruct (H x (or_introl eq_refl)) as [[|] Hx]; rewrite Hx; cbn [mbind option_bind].
  - eexists; reflexivity.
  - apply IH. intros y Hy. apply H. right. exact Hy.
Qed.

Lemma filterM_is_Some {A} (p : A -> option bool) l :
  (forall x, In x l -> is_Some (p x)) -> is_Some (filterM p l).
Proof.
  induction l as [|x l IH]; cbn [filterM]; intros H; [eexists; reflexivity|].
  destruct (H x (or_introl eq_refl)) as [b Hx]. rewrite Hx. cbn [mbind option_bind].
  destruct IH as [kept Hkept]; [intros y Hy; apply H; right; exact Hy|].
  rewrite Hkept. cbn [mbind option_bind]. eexists; reflexivity.
Qed.

Lemma safe_variables_have_one_definition imports scope array allIdentifiers variables
    variable :
  variablesAreSafe imports scope array allIdentifiers variables = true ->
  In variable variables ->
  exists definition, defs variable = [definition].
Proof.
  intros Hsafe Hin.
  destruct (defs variable) as [|definition [|second more]] eqn:Hdefs;
    [exfalso | exists definition; reflexivity | exfalso];
    (assert (Hfalse : variablesAreSafe imports scope array allIdentifiers variables
                      = false);
     [apply variablesAreSafe_false; exists variable; split; [exact Hin|];
      left; intros d; rewrite Hdefs; discriminate
     | rewrite Hsafe in Hfalse; discriminate Hfalse]).
Qed.

(** For a call site the analysis accepts, the reassignment check and with
    it the text of the loop head are defined: each declared variable has
    exactly one definition. *)
Lemma getForOfLoopHeadText_total imports context callExpression scope functionInfo
    allIdentifiers callback array :
  isFixable imports callExpression scope functionInfo allIdentifiers context
  = Some true ->
  head (arguments callExpression) = Some callback ->
  (forall variable reference,
     In variable (getDeclaredVariables context callback) ->
     In reference (references variable) ->
     is_Some (parent (identifier reference))) ->
  is_Some (getForOfLoopHeadText imports context callback array).
Proof.
  intros Hfixable Hcallback Hparents.
  apply isFixable_inv in Hfixable
    as (callParent & callback' & info & _ & _ & _ & Hargs & _ & _ & Hsafe & _).
  rewrite Hargs in Hcallback. injection Hcallback as ->.
  unfold isFunctionParametersSafeToFix in Hsafe.
  assert (Hreassigned :
    is_Some (isFunctionParameterVariableReassigned callback context)).
  { unfold isFunctionParameterVariableReassigned.
    destruct (filterM_is_Some
                (fun variable => d ← head (defs variable);
                                 Some (String.eqb (defType d) "Parameter"))
                (getDeclaredVariables context callback)) as [kept Hkept].
    { intros variable Hin.
      destruct (safe_variables_have_one_definition _ _ _ _ _ _ Hsafe Hin)
        as [definition Hdefs].
      rewrite Hdefs. cbn [head mbind option_bind]. eexists; reflexivity. }
    rewrite Hkept. cbn [mbind option_bind].
    apply someM_is_Some. intros variable Hin.
    apply (filterM_In _ _ _ Hkept) in Hin as [Hin _].
    apply someM_is_Some. intros reference Hreference.
    destruct (Hparents variable reference Hin Hreference) as [p Hp].
    cbv zeta. rewrite Hp. cbn [mbind option_bind]. eexists; reflexivity. }
  destruct Hreassigned as [reassigned Hreassigned].
  unfold getForOfLoopHeadText. cbv zeta. rewrite Hreassigned.
  cbn [mbind option_bind]. eexists; reflexivity.
Qed.

(** C7, as the claim words it, fails: on [foo.forEach((a, b = a++) => {})]
    the call site is fixable and the loop head opens with [for (let],
    although no reference to a parameter inside the callback body is a
    reassignment.  The increment of [a] stands in the default value of
    [b]. *)
Lemma reassignment_outside_body_counterexample :
  lint (Sample.imports DefaultInitialiser.resolve) DefaultInitialiser.context
    DefaultInitialiser.program
  = Some [mkProblem (DefaultInitialiser.nodeAt 5) MESSAGE_ID
            (Some (Some DefaultInitialiser.patch))]
  /\ head DefaultInitialiser.patch
     = Some (mkEdit (0, 28) "for (let [b = a++, a] of foo.entries()) ")
  /\ getForOfLoopHeadText (Sample.imports DefaultInitialiser.resolve)
       DefaultInitialiser.context (DefaultInitialiser.nodeAt 6)
       (DefaultInitialiser.nodeAt 4)
     = Some "for (let [b = a++, a] of foo.entries()) "
  /\ field "body" (DefaultInitialiser.nodeAt 6) = Some (DefaultInitialiser.nodeAt 12)
  /\ ~ parameterIsReassignedInBody DefaultInitialiser.context
         (DefaultInitialiser.nodeAt 6) (DefaultInitialiser.nodeAt 12).
Proof.
  split_conjunctions; try (vm_compute; reflexivity).
  intros (variable & definition & reference & Hvariable & _ & _ & Hreference & _
          & Hinside).
  vm_compute in Hvariable. destruct Hvariable as [<-|[<-|[]]];
    vm_compute in Hreference; destruct Hreference as [<-|[]];
    vm_compute in Hinside; discriminate Hinside.
Qed.

(** C7: for a call site the analysis accepts, the loop head is built, and
    it opens with [for (let] if and only if some reference the scope
    analysis records for one of the callback's parameters, in the body or
    in the parameter list, is the operand of an increment or decrement
    expression or the direct target of an assignment expression; it opens
    with [for (const] if and only if there is none. *)
Theorem loop_head_keyword imports context callExpression scope functionInfo
    allIdentifiers callback array :
  isFixable imports callExpression scope functionInfo allIdentifiers context
  = Some true ->
  head (arguments callExpression) = Some callback ->
  (forall variable reference,
     In variable (getDeclaredVariables context callback) ->
     In reference (references variable) ->
     is_Some (parent (identifier reference))) ->
  exists text,
    getForOfLoopHeadText imports context callback array = Some text
    /\ (String.prefix "for (let " text = true
        <-> parameterIsReassigned context callback)
    /\ (String.prefix "for (const " text = true
        <-> ~ parameterIsReassigned context callback).
Proof.
  intros Hfixable Hcallback Hparents.
  destruct (getForOfLoopHeadText_total imports context callExpression scope
              functionInfo allIdentifiers callback array Hfixable Hcallback Hparents)
    as [text Htext].
  exists text. split; [exact Htext|].
  apply getForOfLoopHeadText_inv in Htext as (reassigned & Hreassigned & ->).
  apply isFunctionParameterVariableReassigned_spec in Hreassigned.
  match goal with
  | |- (String.prefix _ ("for (" +:+ ?k +:+ " " +:+ ?rest) = _ <-> _) /\ _ =>
      set (tail := rest)
  end.
  destruct reassigned.
  - replace (String.prefix "for (let " ("for (" +:+ "let" +:+ " " +:+ tail))
      with true by (symmetry; apply (prefix_append "for (let " tail)).
    replace (String.prefix "for (const " ("for (" +:+ "let" +:+ " " +:+ tail))
      with false by reflexivity.
    split; split.
    + intros _. apply Hreassigned. reflexivity.
    + reflexivity.
    + discriminate.
    + intros Hnot. exfalso. apply Hnot, Hreassigned. reflexivity.
  - replace (String.prefix "for (const " ("for (" +:+ "const" +:+ " " +:+ tail))
      with true by (symmetry; apply (prefix_append "for (const " tail)).
    replace (String.prefix "for (let " ("for (" +:+ "const" +:+ " " +:+ tail))
      with false by reflexivity.
    split; split.
    + discriminate.
    + intros H. apply Hreassigned in H. discriminate H.
    + intros _ H. apply Hreassigned in H. discriminate H.
    + reflexivity.
Qed.

Lemma loop_head_keyword_witness :
  (exists text,
     getForOfLoopHeadText (Sample.imports DefaultInitialiser.resolve)
       DefaultInitialiser.context (DefaultInitialiser.nodeAt 6)
       (DefaultInitialiser.nodeAt 4) = Some text
     /\ (String.prefix "for (let " text = true
         <-> parameterIsReassigned DefaultInitialiser.context
               (DefaultInitialiser.nodeAt 6))
     /\ (String.prefix "for (const " text = true
         <-> ~ parameterIsReassigned DefaultInitialiser.context
                 (DefaultInitialiser.nodeAt 6)))
  /\ (exists text,
        getForOfLoopHeadText (Sample.imports ReturnInIf.resolve) ReturnInIf.context
          (ReturnInIf.nodeAt 6) (ReturnInIf.nodeAt 4) = Some text
        /\ (String.prefix "for (let " text = true
            <-> parameterIsReassigned ReturnInIf.context (ReturnInIf.nodeAt 6))
        /\ (String.prefix "for (const " text = true
            <-> ~ parameterIsReassigned ReturnInIf.context (ReturnInIf.nodeAt 6))).
Proof.
  split.
  - apply (loop_head_keyword (Sample.imports DefaultInitialiser.resolve)
             DefaultInitialiser.context (DefaultInitialiser.nodeAt 2) Sample.globalScope
             (functionInfo DefaultInitialiser.state)
             (allIdentifiers DefaultInitialiser.state)
             (DefaultInitialiser.nodeAt 6) (DefaultInitialiser.nodeAt 4)).
    + vm_compute. reflexivity.
    + vm_compute. reflexivity.
    + intros variable reference Hvariable Hreference.
      vm_compute in Hvariable. destruct Hvariable as [<-|[<-|[]]];
        vm_compute in Hreference; destruct Hreference as [<-|[]];
        vm_compute; eexists; reflexivity.
  - apply (loop_head_keyword (Sample.imports ReturnInIf.resolve)
             ReturnInIf.context (ReturnInIf.nodeAt 2) Sample.globalScope
             (functionInfo ReturnInIf.state) (allIdentifiers ReturnInIf.state)
             (ReturnInIf.nodeAt 6) (ReturnInIf.nodeAt 4)).
    + vm_compute. reflexivity.
    + vm_compute. reflexivity.
    + intros variable reference Hvariable Hreference.
      vm_compute in Hvariable. destruct Hvariable as [<-|[]].
      vm_compute in Hreference. destruct Hreference as [<-|[<-|[]]];
        vm_compute; eexists; reflexivity.
Defined.

(** ** Return statements *)





(** C3: on [a.b?.forEach(x => {})] the call site is fixable and the patch
    wraps the loop in a guard, but the condition of the guard is the text
    [undefined]: the guard does not test the receiver [a.b], and the loop
    never runs. *)
Lemma guard_of_member_receiver :
  lint (Sample.imports OptionalMember.resolve) OptionalMember.context
    OptionalMember.program
  = Some [mkProblem (OptionalMember.nodeAt 8) MESSAGE_ID
            (Some (Some OptionalMember.patch))]
  /\ getText OptionalMember.sourceCode (OptionalMember.nodeAt 5) = "a.b"
  /\ In (mkEdit (0, 0) ("if (undefined) {" +:+ LF)) OptionalMember.patch.
Proof.
  split_conjunctions; try (vm_compute; reflexivity). unfold OptionalMember.patch. find_in.
Qed.


(** C8: on a null-safe call with a block body over several lines and a
    [return] in it, the patch replaces the [return] keyword and also the
    whole statement the keyword is in: two edits of the patch overlap.  The
    range the patch declares through [extendFixRange] is that of the chain
    expression, which ends before the semicolon of the statement. *)
Lemma patch_with_overlapping_edits :
  lint (Sample.imports MultilineGuard.resolve) MultilineGuard.context
    MultilineGuard.program
  = Some [mkProblem (MultilineGuard.nodeAt 6) MESSAGE_ID
            (Some (Some MultilineGuard.patch))]
  /\ In (mkEdit (21, 27) "continue") MultilineGuard.patch
  /\ In (mkEdit (21, 28) (Sample.TAB +:+ "return;")) MultilineGuard.patch
  /\ overlap (mkEdit (21, 27) "continue") (mkEdit (21, 28) (Sample.TAB +:+ "return;"))
     = true
  /\ extendFixRange (nodeRange (MultilineGuard.nodeAt 2))
     = [mkEdit (0, 0) ""; mkEdit (31, 31) ""]
  /\ nodeRange (MultilineGuard.nodeAt 1) = (0, 32).
Proof.
  split_conjunctions; try (vm_compute; reflexivity); unfold MultilineGuard.patch; find_in.
Qed.

(** ** Returns inside loops *)

Lemma isReturnStatementInContinueAbleNodes_spec callbackFunction node :
  isReturnStatementInContinueAbleNodes node callbackFunction
  = negb (sameNode node callbackFunction)
    && (has continueAbleNodeTypes (typeName node)
        || existsb (fun a => has continueAbleNodeTypes (typeName a))
             (ancestorsBelow callbackFunction node)).
Proof.
  induction node as [s|s p IH] using Node_parent_ind;
    cbn [isReturnStatementInContinueAbleNodes ancestorsBelow parent].
  - destruct (sameNode _ callbackFunction); cbn [negb andb]; [reflexivity|].
    destruct (has continueAbleNodeTypes _); reflexivity.
  - destruct (sameNode (mkNode s (Some p)) callbackFunction); cbn [negb andb];
      [reflexivity|].
    destruct (has continueAbleNodeTypes (typeName (mkNode s (Some p))));
      cbn [orb]; [reflexivity|].
    rewrite IH. destruct (sameNode p callbackFunction); cbn; reflexivity.
Qed.

Lemma Forall2_In_l {A B} (R : A -> B -> Prop) l k x :
  Forall2 R l k -> In x l -> exists y, In y k /\ R x y.
Proof.
  induction 1 as [|a b l k Hab _ IH]; intros Hx; [destruct Hx|].
  destruct Hx as [<-|Hx].
  - exists b. split; [left; reflexivity | exact Hab].
  - destruct (IH Hx) as (y & Hy & HR). exists y. split; [right|]; assumption.
Qed.

(** C6 (amended): if a return statement whose nearest enclosing function
    is the callback has, strictly between itself and the callback, an
    ancestor that is a [while], [do-while], [for], [for-of] or [for-in]
    statement, then the call site is classified unfixable and is reported
    with a diagnostic that carries no patch. *)
Theorem return_in_loop_is_not_fixed imports context program n callback
    returnStatement loop :
  typeName (mkNode program None) = "Program" ->
  functionsHaveBody program = true ->
  NoDup (List.map nodeId (nodesOf None program)) ->
  In n (nodesOf None program) ->
  isReported imports n = true ->
  head (arguments n) = Some callback ->
  In returnStatement (nodesOf None program) ->
  isReturnStatement returnStatement = true ->
  isNode (enclosingFunction returnStatement) callback = true ->
  In loop (ancestorsBelow callback returnStatement) ->
  has continueAbleNodeTypes (typeName loop) = true ->
  exists st problems property,
    traverse imports context None program initialState = Some st
    /\ lint imports context program = Some problems
    /\ isFixable imports n (getScope context n) (functionInfo st) (allIdentifiers st)
         context = Some false
    /\ field "callee" n ≫= field "property" = Some property
    /\ In (mkProblem property MESSAGE_ID None) problems.
Proof.
  intros Hroot Hbodies Hnd Hn Hreported Hcallback Hr Hreturn Howned Hloop Htype.
  destruct (programExit_spec imports context program Hroot Hbodies)
    as (problems & Hexit & Hall).
  set (st := visited imports context [] (nodesOf None program) initialState) in *.
  assert (Hsel : arrayForEachCallSelector n = true)
    by (unfold isReported in Hreported; apply andb_prop in Hreported as [H _]; exact H).
  assert (Hfixable :
    isFixable imports n (getScope context n) (functionInfo st) (allIdentifiers st)
      context = Some false).
  { destruct (reported_isFixable_total imports context program Hroot n Hn Hsel)
      as [[|] Hfix]; [exfalso | exact Hfix].
    fold st in Hfix.
    destruct (isFixable_inv _ _ _ _ _ _ Hfix)
      as (_ & callback' & info & _ & _ & _ & Hargs & Hfun & _ & _ & Hinfo & Hnone).
    rewrite Hargs in Hcallback. injection Hcallback as ->.
    assert (Hcb : In callback (nodesOf None program)).
    { apply (nodesOf_fields program None n "arguments"); [exact Hn|].
      fold (arguments n). rewrite Hargs. left. reflexivity. }
    unfold st in Hinfo.
    rewrite (collected_returns imports context program callback Hnd Hcb Hfun) in Hinfo.
    injection Hinfo as <-. cbn [returnStatements] in Hnone.
    assert (Hcontinue :
      isReturnStatementInContinueAbleNodes returnStatement callback = true).
    { rewrite isReturnStatementInContinueAbleNodes_spec.
      apply andb_true_intro. split.
      - apply negb_true_iff. unfold sameNode.
        destruct (Nat.eqb_spec (nodeId returnStatement) (nodeId callback)) as [E|];
          [|reflexivity].
        pose proof (NoDup_map_injective nodeId _ _ _ Hnd Hr Hcb E) as ->.
        rewrite (isFunction_not_return _ Hfun) in Hreturn. discriminate Hreturn.
      - apply orb_true_intro. right. apply existsb_exists. eauto. }
    assert (Hexists :
      existsb (fun r => isReturnStatementInContinueAbleNodes r callback)
        (ownedBy callback (nodesOf None program)) = true).
    { apply existsb_exists. exists returnStatement. split; [|exact Hcontinue].
      apply filter_In. split; [exact Hr|]. rewrite Hreturn, Howned. reflexivity. }
    congruence. }
  assert (Hin : In n (List.filter (isReported imports) (nodesOf None program)))
    by (apply filter_In; split; assumption).
  destruct (Forall2_In_l _ _ _ _ Hall Hin) as ([property message patch] & Hp & Hnode
                                                & Hmessage & Hpatch).
  cbn [problemNode messageId problemFix] in *.
  exists st, problems, property.
  split; [apply traverse_program|].
  split; [unfold lint; rewrite traverse_program; exact Hexit|].
  split; [exact Hfixable|]. split; [exact Hnode|].
  destruct patch as [patch|].
  - exfalso. fold st in Hpatch. destruct Hpatch as [Hpatch _].
    rewrite Hfixable in Hpatch. discriminate Hpatch. eauto.
  - rewrite <- Hmessage. exact Hp.
Qed.

Lemma return_in_loop_is_not_fixed_witness :
  exists st problems property,
    traverse (Sample.imports ReturnInLoop.resolve) ReturnInLoop.context None
      ReturnInLoop.program initialState = Some st
    /\ lint (Sample.imports ReturnInLoop.resolve) ReturnInLoop.context
         ReturnInLoop.program = Some problems
    /\ isFixable (Sample.imports ReturnInLoop.resolve) (ReturnInLoop.nodeAt 2)
         (getScope ReturnInLoop.context (ReturnInLoop.nodeAt 2)) (functionInfo st)
         (allIdentifiers st) ReturnInLoop.context = Some false
    /\ field "callee" (ReturnInLoop.nodeAt 2) ≫= field "property" = Some property
    /\ In (mkProblem property MESSAGE_ID None) problems.
Proof.
  apply (return_in_loop_is_not_fixed (Sample.imports ReturnInLoop.resolve)
           ReturnInLoop.context ReturnInLoop.program (ReturnInLoop.nodeAt 2)
           (ReturnInLoop.nodeAt 6) (ReturnInLoop.nodeAt 12) (ReturnInLoop.nodeAt 9));
    try (vm_compute; reflexivity).
  - apply (bool_decide_unpack _). vm_compute. exact I.
  - vm_compute. find_in.
  - vm_compute. find_in.
  - vm_compute. find_in.
Defined.

(** C6, as stated, fails on
    [a.forEach(x => { while (x) { f(() => { return; }); } })]: the [return]
    lies inside the callback and has the [while] statement strictly between
    itself and the callback, yet the call site is fixable and its diagnostic
    carries a patch.  The [return] belongs to the nested function. *)
Lemma nested_return_counterexample :
  arguments (NestedReturn.nodeAt 2) = [NestedReturn.nodeAt 6]
  /\ isReturnStatement (NestedReturn.nodeAt 17) = true
  /\ existsb (sameNode (NestedReturn.nodeAt 6)) (ancestors (NestedReturn.nodeAt 17))
     = true
  /\ existsb (sameNode (NestedReturn.nodeAt 9))
       (ancestorsBelow (NestedReturn.nodeAt 6) (NestedReturn.nodeAt 17)) = true
  /\ typeName (NestedReturn.nodeAt 9) = "WhileStatement"
  /\ has continueAbleNodeTypes (typeName (NestedReturn.nodeAt 9)) = true
  /\ enclosingFunction (NestedReturn.nodeAt 17) = Some (NestedReturn.nodeAt 15)
  /\ isFixable (Sample.imports NestedReturn.resolve) (NestedReturn.nodeAt 2)
       (getScope NestedReturn.context (NestedReturn.nodeAt 2))
       (functionInfo NestedReturn.state) (allIdentifiers NestedReturn.state)
       NestedReturn.context = Some true
  /\ lint (Sample.imports NestedReturn.resolve) NestedReturn.context
       NestedReturn.program
     = Some [mkProblem (NestedReturn.nodeAt 5) MESSAGE_ID
               (Some (Some NestedReturn.patch))].
Proof. split_conjunctions; vm_compute; reflexivity. Qed.

(** * Further properties *)

(** ** The traversal and the report *)

(** X1: on any tree, whatever the identities of its nodes, the traversal
    does not throw: the listener for return statements always finds a
    current function and its metadata.  It leaves the nesting stack empty,
    and every function node of the tree has metadata afterwards. *)
Theorem traversal_never_throws imports context program :
  exists st,
    traverse imports context None program initialState = Some st
    /\ functionStack st = []
    /\ forall f, In f (nodesOf None program) -> isFunction f = true ->
         is_Some (functionInfo st !! nodeId f).
Proof.
  exists (visited imports context [] (nodesOf None program) initialState).
  split; [apply traverse_program|]. split; [reflexivity|].
  intros f Hf Hfun. apply collect_function_is_Some; assumption.
Qed.

(** X2: a program in which no node is a [forEach] call with a receiver
    outside the allowlist gets no diagnostic, and linting it does not
    throw. *)
Theorem no_reported_call_no_diagnostic imports context program :
  (forall n, In n (nodesOf None program) -> isReported imports n = false) ->
  lint imports context program = Some [].
Proof.
  intros Hnone. unfold lint. rewrite traverse_program. cbn [mbind option_bind].
  unfold programExit, visited. cbn [callExpressions initialState app].
  assert (Hfilter : List.filter (isReported imports) (nodesOf None program) = []).
  { induction (nodesOf None program) as [|n l IH]; [reflexivity|].
    cbn [List.filter]. rewrite (Hnone n (or_introl eq_refl)).
    apply IH. intros m Hm. apply Hnone. right. exact Hm. }
  rewrite Hfilter. reflexivity.
Qed.

Lemma no_reported_call_no_diagnostic_witness :
  lint (Sample.imports Allowlisted.resolve) Allowlisted.context Allowlisted.program
  = Some [].
Proof.
  apply (no_reported_call_no_diagnostic (Sample.imports Allowlisted.resolve)
           Allowlisted.context Allowlisted.program).
  intros n Hn. vm_compute in Hn.
  repeat (destruct Hn as [<-|Hn]; [vm_compute; reflexivity|]). destruct Hn.
Defined.

Lemma unfixable_reported_no_patch imports context program n :
  typeName (mkNode program None) = "Program" ->
  functionsHaveBody program = true ->
  In n (nodesOf None program) ->
  isReported imports n = true ->
  isFixable imports n (getScope context n)
    (functionInfo (visited imports context [] (nodesOf None program) initialState))
    (allIdentifiers (visited imports context [] (nodesOf None program) initialState))
    context <> Some true ->
  exists problems property,
    lint imports context program = Some problems
    /\ field "callee" n ≫= field "property" = Some property
    /\ In (mkProblem property MESSAGE_ID None) problems.
Proof.
  intros Hroot Hbodies Hn Hreported Hunfixable.
  destruct (programExit_spec imports context program Hroot Hbodies)
    as (problems & Hexit & Hall).
  assert (Hin : In n (List.filter (isReported imports) (nodesOf None program)))
    by (apply filter_In; split; assumption).
  destruct (Forall2_In_l _ _ _ _ Hall Hin)
    as ([property message patch] & Hp & Hnode & Hmessage & Hpatch).
  cbn [problemNode messageId problemFix] in *.
  exists problems, property.
  split; [unfold lint; rewrite traverse_program; exact Hexit|].
  split; [exact Hnode|].
  destruct patch as [patch|].
  - exfalso. apply Hunfixable, Hpatch. eauto.
  - rewrite <- Hmessage. exact Hp.
Qed.

Lemma isFixable_inv_callback imports context callExpression scope functionInfo
    allIdentifiers callback :
  isFixable imports callExpression scope functionInfo allIdentifiers context
  = Some true ->
  head (arguments callExpression) = Some callback ->
  isParenthesized imports callExpression (getSourceCode context) = false
  /\ (typeName callback = "FunctionExpression"
      \/ typeName callback = "ArrowFunctionExpression")
  /\ async callback = false
  /\ generator callback = false
  /\ (forall parameter, In parameter (params callback) ->
        typeName parameter <> "RestElement"
        /\ field "typeAnnotation" parameter = None).
Proof.
  unfold isFixable. intros H Hcallback.
  destruct (optional callExpression || _ || _) eqn:H1; [discriminate|].
  apply orb_false_elim in H1 as [H1 _]. apply orb_false_elim in H1 as [_ Hparen].
  destruct (parent callExpression) as [callParent|]; [|discriminate].
  cbn [mbind option_bind] in H.
  destruct (negb (String.eqb (typeName callParent) "ExpressionStatement") && _);
    [discriminate|].
  rewrite Hcallback in H. cbn [mbind option_bind] in H.
  destruct ((negb _ && negb _) || async callback || generator callback) eqn:H3;
    [discriminate|].
  destruct (negb _ || existsb _ (params callback) || negb _) eqn:H4; [discriminate|].
  apply orb_false_elim in H3 as [H3 Hgenerator].
  apply orb_false_elim in H3 as [H3 Hasync].
  apply orb_false_elim in H4 as [H4 _]. apply orb_false_elim in H4 as [_ Hparams].
  split_conjunctions; try assumption.
  - apply andb_false_iff in H3 as [H3|H3]; apply negb_false_iff, String.eqb_eq in H3;
      [left | right]; exact H3.
  - intros parameter Hparameter.
    assert (Hone :
      String.eqb (typeName parameter) "RestElement"
      || bool_decide (is_Some (field "typeAnnotation" parameter)) = false).
    { destruct (_ || _) eqn:E; [|reflexivity].
      assert (existsb (fun parameter =>
                String.eqb (typeName parameter) "RestElement"
                || bool_decide (is_Some (field "typeAnnotation" parameter)))
                (params callback) = true)
        by (apply existsb_exists; eauto).
      congruence. }
    apply orb_false_elim in Hone as [Hrest Hannotation]. split.
    + apply String.eqb_neq, Hrest.
    + apply bool_decide_eq_false in Hannotation.
      destruct (field "typeAnnotation" parameter); [|reflexivity].
      exfalso. apply Hannotation. eauto.
Qed.

(** X3: a reported call site that is itself null-safely invoked or
    parenthesised, that does not take exactly one argument, that is not the
    whole expression of an expression statement or of a chain expression,
    or whose argument is not a function expression or arrow function, is
    async or a generator, has not one or two parameters, has a rest or a
    type-annotated parameter, or declares a variable with a number of
    definitions other than one, gets a diagnostic without a patch. *)
Theorem rejected_call_site_gets_no_patch imports context program n :
  typeName (mkNode program None) = "Program" ->
  functionsHaveBody program = true ->
  In n (nodesOf None program) ->
  isReported imports n = true ->
  (optional n = true
   \/ isParenthesized imports n (getSourceCode context) = true
   \/ length (arguments n) <> 1
   \/ (exists p, parent n = Some p
                 /\ typeName p <> "ExpressionStatement"
                 /\ typeName p <> "ChainExpression")
   \/ (exists callback,
         head (arguments n) = Some callback
         /\ ((typeName callback <> "FunctionExpression"
              /\ typeName callback <> "ArrowFunctionExpression")
             \/ async callback = true
             \/ generator callback = true
             \/ (length (params callback) <> 1 /\ length (params callback) <> 2)
             \/ (exists parameter,
                   In parameter (params callback)
                   /\ (typeName parameter = "RestElement"
                       \/ is_Some (field "typeAnnotation" parameter)))
             \/ (exists variable,
                   In variable (getDeclaredVariables context callback)
                   /\ length (defs variable) <> 1)))) ->
  exists problems property,
    lint imports context program = Some problems
    /\ field "callee" n ≫= field "property" = Some property
    /\ In (mkProblem property MESSAGE_ID None) problems.
Proof.
  intros Hroot Hbodies Hn Hreported Hrejected.
  apply unfixable_reported_no_patch; try assumption.
  intros Hfixable.
  destruct (isFixable_inv _ _ _ _ _ _ Hfixable)
    as (callParent & callback & info & Hparent & Htype & Hoptional & Hargs & _
        & Hlen & Hsafe & _).
  assert (Hhead : head (arguments n) = Some callback) by (rewrite Hargs; reflexivity).
  destruct (isFixable_inv_callback _ _ _ _ _ _ _ Hfixable Hhead)
    as (Hparen & Hfunction & Hasync & Hgenerator & Hparams).
  destruct Hrejected
    as [H|[H|[H|[(p & Hp & Hes & Hce)|(callback' & Hcallback' & H)]]]].
  - congruence.
  - congruence.
  - apply H. rewrite Hargs. reflexivity.
  - rewrite Hparent in Hp. injection Hp as <-. destruct Htype; contradiction.
  - rewrite Hhead in Hcallback'. injection Hcallback' as <-.
    destruct H
      as [[Hfe Harrow]|[H|[H|[[H1 H2]|[(parameter & Hin & H)|(variable & Hin & H)]]]]].
    + destruct Hfunction; contradiction.
    + congruence.
    + congruence.
    + destruct Hlen; contradiction.
    + destruct (Hparams parameter Hin) as [Hrest Hannotation].
      destruct H as [H|[x Hx]]; [contradiction | congruence].
    + unfold isFunctionParametersSafeToFix in Hsafe.
      assert (Hfalse :
        variablesAreSafe imports (getScope context n) n
          (allIdentifiers
             (visited imports context [] (nodesOf None program) initialState))
          (getDeclaredVariables context callback) = false).
      { apply variablesAreSafe_false. exists variable. split; [exact Hin|]. left.
        intros definition Hdefs. apply H. rewrite Hdefs. reflexivity. }
      congruence.
Qed.

Lemma rejected_call_site_gets_no_patch_witness :
  exists problems property,
    lint (Sample.imports AsyncCallback.resolve) AsyncCallback.context
      AsyncCallback.program = Some problems
    /\ field "callee" (AsyncCallback.nodeAt 2) ≫= field "property" = Some property
    /\ In (mkProblem property MESSAGE_ID None) problems.
Proof.
  apply (rejected_call_site_gets_no_patch (Sample.imports AsyncCallback.resolve)
           AsyncCallback.context AsyncCallback.program (AsyncCallback.nodeAt 2));
    try (vm_compute; reflexivity).
  - vm_compute. find_in.
  - do 4 right. exists (AsyncCallback.nodeAt 6).
    split; [vm_compute; reflexivity|]. right. left. vm_compute. reflexivity.
Defined.

(** ** The fixability analysis *)

Lemma isFunctionParametersSafeToFix_same_members imports context callback scope
    callExpression l l' :
  (forall x, inRange callExpression x = true -> (In x l <-> In x l')) ->
  isFunctionParametersSafeToFix imports callback context scope callExpression l
  = isFunctionParametersSafeToFix imports callback context scope callExpression l'.
Proof.
  intros Hsame. unfold isFunctionParametersSafeToFix.
  assert (Hiff : forall a b,
    (forall x, inRange callExpression x = true -> (In x a <-> In x b)) ->
    variablesAreSafe imports scope callExpression a
      (getDeclaredVariables context callback) = false ->
    variablesAreSafe imports scope callExpression b
      (getDeclaredVariables context callback) = false).
  { intros a b Hab Ha. apply variablesAreSafe_false in Ha as (variable & Hv & H).
    apply variablesAreSafe_false. exists variable. split; [exact Hv|].
    destruct H as [H|(d & i & Hd & Ht & Hi & Hn & Hin & Hres)]; [left; exact H|].
    right. exists d, i. split_conjunctions; try assumption. apply (Hab i Hin), Hi. }
  destruct (variablesAreSafe imports scope callExpression l _) eqn:Hl,
    (variablesAreSafe imports scope callExpression l' _) eqn:Hl'; try reflexivity.
  - rewrite (Hiff l' l) in Hl; [discriminate Hl | | exact Hl'].
    intros x Hx. symmetry. apply Hsame, Hx.
  - rewrite (Hiff l l' Hsame Hl) in Hl'. discriminate Hl'.
Qed.

(** X4: the verdict of the fixability analysis depends on the recorded
    identifiers only through those that lie within the range of the call
    expression, and neither on their order nor on how often each was
    recorded: two lists with the same members inside that range give the
    same verdict. *)
Theorem fixability_reads_identifiers_of_call_only imports context callExpression
    scope functionInfo l l' :
  (forall x, inRange callExpression x = true -> (In x l <-> In x l')) ->
  isFixable imports callExpression scope functionInfo l context
  = isFixable imports callExpression scope functionInfo l' context.
Proof.
  intros Hsame. unfold isFixable.
  destruct (optional callExpression || _ || _); [reflexivity|].
  destruct (parent callExpression) as [callParent|]; [|reflexivity].
  cbn [mbind option_bind].
  destruct (negb (String.eqb (typeName callParent) "ExpressionStatement") && _);
    [reflexivity|].
  destruct (head (arguments callExpression)) as [callback|]; [|reflexivity].
  cbn [mbind option_bind].
  rewrite (isFunctionParametersSafeToFix_same_members imports context callback scope
             callExpression l l' Hsame).
  reflexivity.
Qed.

Lemma fixability_reads_identifiers_of_call_only_witness :
  isFixable (Sample.imports MapThenForEach.resolve) (MapThenForEach.nodeAt 2)
    Sample.globalScope (functionInfo MapThenForEach.state)
    (allIdentifiers MapThenForEach.state) MapThenForEach.context
  = isFixable (Sample.imports MapThenForEach.resolve) (MapThenForEach.nodeAt 2)
      Sample.globalScope (functionInfo MapThenForEach.state)
      (rev (allIdentifiers MapThenForEach.state)) MapThenForEach.context.
Proof.
  apply (fixability_reads_identifiers_of_call_only
           (Sample.imports MapThenForEach.resolve) MapThenForEach.context
           (MapThenForEach.nodeAt 2) Sample.globalScope
           (functionInfo MapThenForEach.state)
           (allIdentifiers MapThenForEach.state)
           (rev (allIdentifiers MapThenForEach.state))).
  intros x _. apply in_rev.
Defined.

(** X5: [isChildScope child parent] holds exactly when [parent] is
    [child] itself or one of the scopes reached from [child] through
    [upper] links.  In particular every scope is a child scope of itself,
    so the test [variable.scope === scope] the parameter check makes first
    is subsumed by its [isChildScope(scope, variable.scope)]. *)
Theorem isChildScope_chain child parent :
  isChildScope child parent
  = existsb (fun s => sameScope s parent) (scopeChain child)
  /\ isChildScope child child = true
  /\ (sameScope parent child = true -> isChildScope child parent = true).
Proof.
  assert (Hchain : forall c,
    isChildScope c parent = existsb (fun s => sameScope s parent) (scopeChain c)).
  { induction c as [i|i u IH] using Scope_upper_ind;
      cbn [isChildScope scopeChain upper existsb].
    - destruct (sameScope _ parent); reflexivity.
    - destruct (sameScope (mkScope i (Some u)) parent); [reflexivity|]. exact IH. }
  split; [apply Hchain|].
  assert (Hrefl : forall c, isChildScope c c = true).
  { intros [i u]. cbn [isChildScope]. unfold sameScope. rewrite Nat.eqb_refl.
    reflexivity. }
  split; [apply Hrefl|].
  intros Hsame. destruct child as [i u]. cbn [isChildScope].
  unfold sameScope in *. rewrite Nat.eqb_sym, Hsame. reflexivity.
Qed.

(** X6: the walk of [isReturnStatementInContinueAbleNodes] examines the
    return statement and its ancestors below the callback, and nothing at
    or above the callback: it answers true exactly when the statement is
    not the callback itself and one of those nodes is a [while],
    [do-while], [for], [for-of] or [for-in] statement.  A loop around the
    callback, such as one the [forEach] call itself stands in, does not
    count. *)
Theorem loop_check_stops_at_callback callbackFunction node :
  isReturnStatementInContinueAbleNodes node callbackFunction = true
  <-> sameNode node callbackFunction = false
      /\ exists a,
           In a (node :: ancestorsBelow callbackFunction node)
           /\ In (typeName a) continueAbleNodeTypes.
Proof.
  rewrite isReturnStatementInContinueAbleNodes_spec, andb_true_iff, negb_true_iff.
  assert (Hhas : forall a,
    has continueAbleNodeTypes (typeName a) = true
    <-> In (typeName a) continueAbleNodeTypes).
  { intros a. unfold has. rewrite existsb_exists. split.
    - intros (t & Ht & E). apply String.eqb_eq in E. rewrite E. exact Ht.
    - intros H. exists (typeName a). split; [exact H | apply String.eqb_refl]. }
  split; intros [Hsame H]; (split; [exact Hsame|]).
  - apply orb_prop in H as [H|H].
    + exists node. split; [left; reflexivity | apply Hhas, H].
    + apply existsb_exists in H as (a & Ha & H). exists a.
      split; [right; exact Ha | apply Hhas, H].
  - destruct H as (a & [<-|Ha] & H); apply orb_true_iff.
    + left. apply Hhas, H.
    + right. apply existsb_exists. exists a. split; [exact Ha | apply Hhas, H].
Qed.

(** ** The shape of a patch *)

Lemma last_filter_Some {A} (p : A -> bool) l x :
  last (List.filter p l) = Some x -> In x l /\ p x = true.
Proof.
  intros H. apply last_Some in H as [front H].
  apply filter_In. rewrite H. apply in_or_app. right. left. reflexivity.
Qed.

Lemma getForOfLoopHeadRange_inv callExpression context body r :
  getForOfLoopHeadRange callExpression context body = Some r ->
  r.1 = (nodeRange callExpression).1
  /\ if String.eqb (typeName body) "BlockStatement"
     then r.2 = (nodeRange body).1
     else exists arrowToken,
            In arrowToken (tokens (getSourceCode context))
            /\ isArrowToken arrowToken = true
            /\ (tokenRange arrowToken).2 <= (nodeRange body).1
            /\ r.2 = (tokenRange arrowToken).2.
Proof.
  unfold getForOfLoopHeadRange. cbv zeta.
  destruct (String.eqb (typeName body) "BlockStatement").
  - cbn [mbind option_bind]. intros [= <-]. split; reflexivity.
  - destruct (getTokenBefore _ body isArrowToken) as [arrowToken|] eqn:Harrow;
      cbn [mbind option_bind]; [|discriminate].
    intros [= <-]. split; [reflexivity|]. exists arrowToken.
    unfold getTokenBefore in Harrow. apply last_filter_Some in Harrow as [Hin Htest].
    apply andb_prop in Htest as [Hbefore Hkind]. apply Nat.leb_le in Hbefore.
    split_conjunctions; [exact Hin | exact Hkind | exact Hbefore | reflexivity].
Qed.

(** X7: the range the loop head replaces starts where the call expression
    starts and ends at or before the start of the callback body, so the
    text of the body is never part of it.  For a block body it ends exactly
    at the body's opening brace; for an expression body it ends at the end
    of an arrow token that lies before the body. *)
Theorem loop_head_range_stops_before_body callExpression context body r :
  getForOfLoopHeadRange callExpression context body = Some r ->
  r.1 = (nodeRange callExpression).1
  /\ r.2 <= (nodeRange body).1
  /\ (typeName body = "BlockStatement" -> r.2 = (nodeRange body).1)
  /\ (typeName body <> "BlockStatement" ->
      exists arrowToken,
        In arrowToken (tokens (getSourceCode context))
        /\ isArrowToken arrowToken = true
        /\ r.2 = (tokenRange arrowToken).2).
Proof.
  intros H. apply getForOfLoopHeadRange_inv in H as [Hstart Hend].
  split; [exact Hstart|].
  destruct (String.eqb_spec (typeName body) "BlockStatement") as [Hblock|Hblock].
  - split_conjunctions; [rewrite Hend; reflexivity | intros _; exact Hend
                        | intros Hn; destruct (Hn Hblock)].
  - destruct Hend as (arrowToken & Hin & Hkind & Hbefore & Hend).
    split_conjunctions; [rewrite Hend; exact Hbefore | intros Hb; destruct (Hblock Hb)|].
    intros _. exists arrowToken. split_conjunctions; assumption.
Qed.

Lemma loop_head_range_stops_before_body_witness :
  (0, 22).1 = (nodeRange (ExpressionBody.nodeAt 2)).1
  /\ (0, 22).2 <= (nodeRange (ExpressionBody.nodeAt 9)).1
  /\ (typeName (ExpressionBody.nodeAt 9) = "BlockStatement" ->
      (0, 22).2 = (nodeRange (ExpressionBody.nodeAt 9)).1)
  /\ (typeName (ExpressionBody.nodeAt 9) <> "BlockStatement" ->
      exists arrowToken,
        In arrowToken (tokens (getSourceCode ExpressionBody.context))
        /\ isArrowToken arrowToken = true
        /\ (0, 22).2 = (tokenRange arrowToken).2).
Proof.
  apply (loop_head_range_stops_before_body (ExpressionBody.nodeAt 2)
           ExpressionBody.context (ExpressionBody.nodeAt 9) (0, 22)).
  vm_compute. reflexivity.
Defined.

Lemma getLastTokens_last sourceCode node token :
  getLastTokens sourceCode node 2 !! 1 = Some token ->
  getLastToken sourceCode node = Some token.
Proof.
  unfold getLastTokens, getLastToken. cbv zeta.
  generalize (tokensIn sourceCode (nodeRange node)). intros l H.
  rewrite lookup_drop in H. pose proof (lookup_lt_Some _ _ _ H) as Hlt.
  rewrite last_lookup. rewrite <- H. f_equal. lia.
Qed.

(** X8: every patch the rule generates has the same frame.  Its first edit
    replaces a range that starts at the start of the call expression; the
    closing token of the call expression is removed; and its last two edits
    are the empty insertions at the two ends of the call's parent, which
    for a null-safe call is the chain expression and not the statement. *)
Theorem patch_frame imports callExpression functionInfo context edits :
  getFixFunction imports callExpression functionInfo context = Some (Some edits) ->
  exists callParent headRange headText lastToken middle,
    parent callExpression = Some callParent
    /\ headRange.1 = (nodeRange callExpression).1
    /\ getLastToken (getSourceCode context) callExpression = Some lastToken
    /\ In (fixer.remove lastToken) middle
    /\ edits
       = fixer.replaceTextRange headRange headText
         :: middle
         ++ [fixer.insertTextBeforeRange (nodeRange callParent) "";
             fixer.insertTextAfterRange (nodeRange callParent) ""].
Proof.
  intros H.
  apply getFixFunction_inv in H
    as (callback & callee & array & info & body & callParent & statementParent
        & _ & _ & _ & _ & _ & Hparent & _ & Hpatch).
  symmetry in Hpatch. apply fixFunction_inv in Hpatch
    as (headText & headRange & penultimateToken & lastToken & returnEdits & callParent'
        & statement & statementLastToken & wrap
        & _ & Hrange & _ & Hlast & _ & Hparent' & _ & _ & _ & Hedits).
  rewrite Hparent in Hparent'. injection Hparent' as <-.
  apply getForOfLoopHeadRange_inv in Hrange as [Hstart _].
  apply getLastTokens_last in Hlast.
  remember (removeCallbackParentheses imports context callback) as parentheses.
  remember (if isCommaToken penultimateToken then [fixer.remove penultimateToken]
            else []) as comma.
  remember (if shouldRemoveExpressionStatementLastToken body (optional callee)
                 statementLastToken
            then [fixer.remove statementLastToken] else []) as semicolon.
  remember (fixSpaceAroundKeyword imports callParent (getSourceCode context)) as space.
  cbn [app] in Hedits.
  eexists callParent, headRange, _, lastToken,
    (parentheses ++ comma ++ fixer.remove lastToken :: returnEdits ++ semicolon
     ++ space ++ wrap).
  split_conjunctions; [exact Hparent | exact Hstart | exact Hlast | |].
  - rewrite !in_app_iff. cbn [In]. tauto.
  - rewrite Hedits. unfold extendFixRange. f_equal.
    rewrite <- !app_assoc. cbn [app]. rewrite <- !app_assoc. reflexivity.
Qed.

Lemma patch_frame_witness :
  exists callParent headRange headText lastToken middle,
    parent (ExpressionBody.nodeAt 2) = Some callParent
    /\ headRange.1 = (nodeRange (ExpressionBody.nodeAt 2)).1
    /\ getLastToken (getSourceCode ExpressionBody.context) (ExpressionBody.nodeAt 2)
       = Some lastToken
    /\ In (fixer.remove lastToken) middle
    /\ ExpressionBody.patch
       = fixer.replaceTextRange headRange headText
         :: middle
         ++ [fixer.insertTextBeforeRange (nodeRange callParent) "";
             fixer.insertTextAfterRange (nodeRange callParent) ""].
Proof.
  apply (patch_frame (Sample.imports ExpressionBody.resolve) (ExpressionBody.nodeAt 2)
           (functionInfo ExpressionBody.state) ExpressionBody.context
           ExpressionBody.patch).
  vm_compute. reflexivity.
Defined.

(** ** Overlapping edits of the null-safe rewrite *)

Lemma concatM_In {A B} (f : A -> option (list B)) l ys x :
  concatM f l = Some ys -> In x l ->
  exists zs front back, f x = Some zs /\ ys = front ++ zs ++ back.
Proof.
  revert ys. induction l as [|y l IH]; cbn [concatM]; intros ys H Hin; [destruct Hin|].
  destruct (f y) as [first|] eqn:Hy; cbn [mbind option_bind] in H; [|discriminate].
  destruct (concatM f l) as [others|]; cbn [mbind option_bind] in H; [|discriminate].
  injection H as <-. destruct Hin as [<-|Hin].
  - exists first, [], others. split; [exact Hy | reflexivity].
  - destruct (IH others eq_refl Hin) as (zs & front & back & Hx & ->).
    exists zs, (first ++ front), back. split; [exact Hx|].
    rewrite <- app_assoc. reflexivity.
Qed.

Lemma replaceReturnStatement_first imports context returnStatement edits token :
  replaceReturnStatement imports context returnStatement = Some edits ->
  getFirstToken (getSourceCode context) returnStatement = Some token ->
  exists e rest, edits = e :: rest /\ editRange e = tokenRange token.
Proof.
  unfold replaceReturnStatement. cbv zeta. intros H Htoken.
  rewrite Htoken in H. cbn [mbind option_bind] in H.
  destruct (assertToken token "return"); [|discriminate].
  cbn [mbind option_bind] in H.
  destruct (field "argument" returnStatement) as [argument|].
  - destruct (shouldSwitchReturnStatementToBlockStatement returnStatement)
      as [insertBraces|]; [|discriminate].
    cbn [mbind option_bind] in H.
    match type of H with
    | mbind _ ?m = _ => destruct m as [textBefore|]; [|discriminate]
    end.
    cbn [mbind option_bind] in H.
    match type of H with
    | mbind _ ?m = _ => destruct m as [insertBefore|]; [|discriminate]
    end.
    cbn [mbind option_bind] in H.
    destruct (getLastToken _ returnStatement) as [lastToken|]; [|discriminate].
    cbn [mbind option_bind] in H. injection H as <-.
    eexists _, _. split; reflexivity.
  - injection H as <-. eexists _, _. split; reflexivity.
Qed.

Lemma wrapInIfStatement_multiline imports callExpression context body indentedString
    wrap statement :
  wrapInIfStatement imports callExpression context body true indentedString
  = Some wrap ->
  typeName body = "BlockStatement" ->
  (lines (syntax body)).1 <> (lines (syntax body)).2 ->
  In statement (fields "body" body) ->
  In (fixer.replaceText statement
        (indentString imports (getText (getSourceCode context) statement))) wrap.
Proof.
  unfold wrapInIfStatement. cbv zeta. intros H Hblock Hlines Hin.
  destruct (field "callee" callExpression) as [callee|]; [|discriminate].
  cbn [mbind option_bind] in H.
  destruct (field "object" callee) as [object|]; [|discriminate].
  cbn [mbind option_bind] in H.
  apply Nat.eqb_neq in Hlines. rewrite Hblock, Hlines in H.
  cbn [String.eqb Ascii.eqb Bool.eqb negb orb andb] in H.
  destruct (getLastToken _ body) as [lastToken|]; [|discriminate].
  cbn [mbind option_bind] in H. injection H as <-.
  cbn [app]. right. right. right.
  apply (in_map (fun expression =>
                   fixer.replaceText expression
                     (indentString imports (getText (getSourceCode context) expression)))),
    Hin.
Qed.

(** X9: whenever the rule patches a null-safe call whose callback has a
    block body over several lines, and a [return] recorded for the callback
    has its keyword inside one of the statements of that body, the patch
    holds two edits that overlap: the edit on the [return] keyword and the
    replacement of the whole statement by its indented text. *)
Theorem multiline_guard_edits_overlap imports callExpression functionInfo context
    edits callee callback body info returnStatement statement returnToken :
  getFixFunction imports callExpression functionInfo context = Some (Some edits) ->
  field "callee" callExpression = Some callee ->
  optional callee = true ->
  head (arguments callExpression) = Some callback ->
  field "body" callback = Some body ->
  typeName body = "BlockStatement" ->
  (lines (syntax body)).1 <> (lines (syntax body)).2 ->
  functionInfo !! nodeId callback = Some info ->
  In returnStatement (returnStatements info) ->
  In statement (fields "body" body) ->
  getFirstToken (getSourceCode context) returnStatement = Some returnToken ->
  (nodeRange statement).1 <= (tokenRange returnToken).1 ->
  (tokenRange returnToken).1 < (tokenRange returnToken).2 ->
  (tokenRange returnToken).2 <= (nodeRange statement).2 ->
  exists front middle back onKeyword onStatement,
    edits = front ++ onKeyword :: middle ++ onStatement :: back
    /\ editRange onKeyword = tokenRange returnToken
    /\ onStatement
       = fixer.replaceText statement
           (indentString imports (getText (getSourceCode context) statement))
    /\ overlap onKeyword onStatement = true.
Proof.
  intros H Hcallee Hoptional Hcallback Hbody Hblock Hlines Hinfo Hreturn Hstatement
    Htoken Hstart Hnonempty Hend.
  apply getFixFunction_inv in H
    as (callback' & callee' & array & info' & body' & callParent & statementParent
        & Hcallback' & Hcallee' & _ & Hinfo' & Hbody' & _ & _ & Hpatch).
  rewrite Hcallback in Hcallback'. injection Hcallback' as <-.
  rewrite Hcallee in Hcallee'. injection Hcallee' as <-.
  rewrite Hinfo in Hinfo'. injection Hinfo' as <-.
  rewrite Hbody in Hbody'. injection Hbody' as <-.
  rewrite Hoptional, Hblock in Hpatch.
  change (String.eqb "BlockStatement" "BlockStatement") with true in Hpatch.
  symmetry in Hpatch. apply fixFunction_inv in Hpatch
    as (headText & headRange & penultimateToken & lastToken & returnEdits & callParent'
        & outer & statementLastToken & wrap
        & _ & _ & _ & _ & Hreturns & _ & _ & _ & Hwrap & Hedits).
  destruct (concatM_In _ _ _ _ Hreturns Hreturn) as (zs & before & after & Hzs & ->).
  destruct (replaceReturnStatement_first _ _ _ _ _ Hzs Htoken)
    as (onKeyword & others & -> & Hrange).
  pose proof (wrapInIfStatement_multiline _ _ _ _ _ _ _ Hwrap Hblock Hlines Hstatement)
    as Hin.
  apply in_split in Hin as (inner & outerEdits & ->).
  remember (removeCallbackParentheses imports context callback) as parentheses.
  remember (if isCommaToken penultimateToken then [fixer.remove penultimateToken]
            else []) as comma.
  remember (if shouldRemoveExpressionStatementLastToken body true statementLastToken
            then [fixer.remove statementLastToken] else []) as semicolon.
  remember (fixSpaceAroundKeyword imports callParent' (getSourceCode context)) as space.
  cbn [app] in Hedits.
  eexists (_ :: parentheses ++ comma ++ fixer.remove lastToken :: before),
    (others ++ after ++ semicolon ++ space ++ inner),
    (outerEdits ++ extendFixRange (nodeRange callParent')),
    onKeyword, _.
  split_conjunctions; [|exact Hrange|reflexivity|].
  - rewrite Hedits. cbn [app]. f_equal.
    repeat (rewrite <- ?app_assoc; cbn [app]). reflexivity.
  - unfold overlap. rewrite Hrange.
    change (editRange (fixer.replaceText statement _)) with (nodeRange statement).
    apply andb_true_intro. split; apply Nat.ltb_lt; lia.
Qed.

Lemma multiline_guard_edits_overlap_witness :
  exists front middle back onKeyword onStatement,
    MultilineGuard.patch = front ++ onKeyword :: middle ++ onStatement :: back
    /\ editRange onKeyword = tokenRange (Sample.keyword "return" 21)
    /\ onStatement
       = fixer.replaceText (MultilineGuard.nodeAt 10)
           (indentString (Sample.imports MultilineGuard.resolve)
              (getText (getSourceCode MultilineGuard.context)
                 (MultilineGuard.nodeAt 10)))
    /\ overlap onKeyword onStatement = true.
Proof.
  apply (multiline_guard_edits_overlap (Sample.imports MultilineGuard.resolve)
           (MultilineGuard.nodeAt 3) (functionInfo MultilineGuard.state)
           MultilineGuard.context MultilineGuard.patch (MultilineGuard.nodeAt 4)
           (MultilineGuard.nodeAt 7) (MultilineGuard.nodeAt 9)
           (mkFunctionInfo [MultilineGuard.nodeAt 10] MultilineGuard.callbackScope)
           (MultilineGuard.nodeAt 10) (MultilineGuard.nodeAt 10)
           (Sample.keyword "return" 21));
    first [ vm_compute; reflexivity
          | vm_compute; discriminate
          | vm_compute; lia
          | left; vm_compute; reflexivity ].
Defined.

(** ** The loop head of a fixable call site *)

(** X10: for a call site the analysis accepts, building the text of the
    loop head does not throw, provided every reference to a variable the
    callback declares has an identifier with a parent node.  The analysis
    has then checked that each declared variable has exactly one
    definition, so reading [variable.defs[0].type] is defined. *)
Theorem fixable_call_site_has_loop_head imports context callExpression scope
    functionInfo allIdentifiers callback array :
  isFixable imports callExpression scope functionInfo allIdentifiers context
  = Some true ->
  head (arguments callExpression) = Some callback ->
  (forall variable reference,
     In variable (getDeclaredVariables context callback) ->
     In reference (references variable) ->
     is_Some (parent (identifier reference))) ->
  is_Some (getForOfLoopHeadText imports context callback array).
Proof.
  intros Hfixable Hcallback Hparents.
  exact (getForOfLoopHeadText_total imports context callExpression scope functionInfo
           allIdentifiers callback array Hfixable Hcallback Hparents).
Qed.

Lemma fixable_call_site_has_loop_head_witness :
  is_Some (getForOfLoopHeadText (Sample.imports ReturnInIf.resolve) ReturnInIf.context
             (ReturnInIf.nodeAt 6) (ReturnInIf.nodeAt 4)).
Proof.
  apply (fixable_call_site_has_loop_head (Sample.imports ReturnInIf.resolve)
           ReturnInIf.context (ReturnInIf.nodeAt 2) Sample.globalScope
           (functionInfo ReturnInIf.state) (allIdentifiers ReturnInIf.state)
           (ReturnInIf.nodeAt 6) (ReturnInIf.nodeAt 4)).
  - vm_compute. reflexivity.
  - vm_compute. reflexivity.
  - intros variable reference Hvariable Hreference.
    vm_compute in Hvariable. destruct Hvariable as [<-|[]].
    vm_compute in Hreference. destruct Hreference as [<-|[<-|[]]];
      vm_compute; eexists; reflexivity.
Defined.

(** ** Trimming the loop head *)

Lemma trimTrailingWhitespace_suffix s :
  exists suffix,
    s = trimTrailingWhitespace s +:+ suffix /\ allWhitespace suffix = true.
Proof.
  induction s as [|c rest (suffix & Hrest & Hws)]; cbn [trimTrailingWhitespace].
  - exists "". split; reflexivity.
  - destruct (trimTrailingWhitespace rest) as [|d t] eqn:Htrim.
    + change ("" +:+ suffix) with suffix in Hrest. subst suffix.
      destruct (isWhitespace c) eqn:Hc.
      * exists (String c rest). split; [reflexivity|].
        cbn [allWhitespace]. rewrite Hc, Hws. reflexivity.
      * exists rest. split; [reflexivity | exact Hws].
    + exists suffix. split; [|exact Hws].
      change (String c (String d t) +:+ suffix) with (String c (String d t +:+ suffix)).
      rewrite <- Hrest. reflexivity.
Qed.

Lemma trimTrailingWhitespace_last s :
  match lastCharacter (trimTrailingWhitespace s) with
  | Some c => isWhitespace c = false
  | None => trimTrailingWhitespace s = ""
  end.
Proof.
  induction s as [|c rest IH]; cbn [trimTrailingWhitespace]; [reflexivity|].
  destruct (trimTrailingWhitespace rest) as [|d t].
  - destruct (isWhitespace c) eqn:Hc; [reflexivity | exact Hc].
  - change (lastCharacter (String c (String d t))) with (lastCharacter (String d t)).
    destruct (lastCharacter (String d t)); [exact IH | discriminate IH].
Qed.

Lemma trimTrailingWhitespace_fixed s :
  match lastCharacter s with
  | Some c => isWhitespace c = false
  | None => True
  end ->
  trimTrailingWhitespace s = s.
Proof.
  induction s as [|a rest IH]; [reflexivity|].
  destruct rest as [|b rest'].
  - cbn. intros ->. reflexivity.
  - change (lastCharacter (String a (String b rest')))
      with (lastCharacter (String b rest')).
    intros H. cbn [trimTrailingWhitespace]. cbn [trimTrailingWhitespace] in IH.
    rewrite (IH H). reflexivity.
Qed.

(** X11: trimming the loop head, [text.replace(/\s+$/, '')], on a text of
    code units below 256 removes a suffix of white space and nothing else;
    what is left does not end in white space; and trimming twice is
    trimming once. *)
Theorem trimTrailingWhitespace_removes_trailing_space s :
  (exists suffix,
     s = trimTrailingWhitespace s +:+ suffix /\ allWhitespace suffix = true)
  /\ match lastCharacter (trimTrailingWhitespace s) with
     | Some c => isWhitespace c = false
     | None => trimTrailingWhitespace s = ""
     end
  /\ trimTrailingWhitespace (trimTrailingWhitespace s) = trimTrailingWhitespace s.
Proof.
  split; [apply trimTrailingWhitespace_suffix|].
  split; [apply trimTrailingWhitespace_last|].
  apply trimTrailingWhitespace_fixed.
  pose proof (trimTrailingWhitespace_last s) as H.
  destruct (lastCharacter (trimTrailingWhitespace s)); [exact H | exact I].
Qed.

(** ** The loop head, end to end *)

(** X12: for a call site the analysis accepts, whose reference identifiers
    have parents, the loop head is built and has one of two shapes.  With
    one parameter it is [for (<keyword> <parameter> of <receiver>) ]; with
    two it is [for (<keyword> [<second>, <first>] of <receiver>.entries()) ],
    the parameters in inverse order.  Parameters and receiver stand as
    their source text, the receiver in parentheses exactly when
    [isParenthesized] holds of it. *)
Theorem loop_head_text_of_fixable_call_site imports context callExpression scope
    functionInfo allIdentifiers callback array :
  isFixable imports callExpression scope functionInfo allIdentifiers context
  = Some true ->
  head (arguments callExpression) = Some callback ->
  (forall variable reference,
     In variable (getDeclaredVariables context callback) ->
     In reference (references variable) ->
     is_Some (parent (identifier reference))) ->
  exists keyword arrayText,
    (keyword = "let" \/ keyword = "const")
    /\ arrayText
       = (if isParenthesized imports array (getSourceCode context)
          then "(" +:+ getText (getSourceCode context) array +:+ ")"
          else getText (getSourceCode context) array)
    /\ ((exists element,
           params callback = [element]
           /\ getForOfLoopHeadText imports context callback array
              = Some ("for (" +:+ keyword +:+ " "
                      +:+ getText (getSourceCode context) element
                      +:+ " of " +:+ arrayText +:+ ") "))
        \/ (exists element index,
              params callback = [element; index]
              /\ getForOfLoopHeadText imports context callback array
                 = Some ("for (" +:+ keyword +:+ " "
                         +:+ "[" +:+ getText (getSourceCode context) index +:+ ", "
                         +:+ getText (getSourceCode context) element +:+ "]"
                         +:+ " of " +:+ arrayText +:+ ".entries()" +:+ ") "))).
Proof.
  intros Hfixable Hcallback Hparents.
  destruct (getForOfLoopHeadText_total imports context callExpression scope
              functionInfo allIdentifiers callback array Hfixable Hcallback Hparents)
    as [text Htext].
  rewrite Htext.
  apply isFixable_inv in Hfixable
    as (callParent & callback' & info & _ & _ & _ & Hargs & _ & Hlen & _).
  rewrite Hargs in Hcallback. injection Hcallback as ->.
  apply getForOfLoopHeadText_inv in Htext as (reassigned & _ & ->).
  exists (if reassigned then "let" else "const"). eexists.
  split; [destruct reassigned; [left | right]; reflexivity|].
  split; [reflexivity|].
  destruct (params callback) as [|element [|index [|third more]]];
    cbn [length] in Hlen; try (destruct Hlen; discriminate).
  - left. exists element. split; reflexivity.
  - right. exists element, index. split; [reflexivity|].
    cbn [length Nat.eqb List.map lookup list_lookup templateText].
    rewrite !append_assoc. reflexivity.
Qed.

Lemma loop_head_text_of_fixable_call_site_witness :
  exists keyword arrayText,
    (keyword = "let" \/ keyword = "const")
    /\ arrayText
       = (if isParenthesized (Sample.imports ExpressionBody.resolve)
               (ExpressionBody.nodeAt 4) (getSourceCode ExpressionBody.context)
          then "(" +:+ getText (getSourceCode ExpressionBody.context)
                         (ExpressionBody.nodeAt 4) +:+ ")"
          else getText (getSourceCode ExpressionBody.context)
                 (ExpressionBody.nodeAt 4))
    /\ ((exists element,
           params (ExpressionBody.nodeAt 6) = [element]
           /\ getForOfLoopHeadText (Sample.imports ExpressionBody.resolve)
                ExpressionBody.context (ExpressionBody.nodeAt 6)
                (ExpressionBody.nodeAt 4)
              = Some ("for (" +:+ keyword +:+ " "
                      +:+ getText (getSourceCode ExpressionBody.context) element
                      +:+ " of " +:+ arrayText +:+ ") "))
        \/ (exists element index,
              params (ExpressionBody.nodeAt 6) = [element; index]
              /\ getForOfLoopHeadText (Sample.imports ExpressionBody.resolve)
                   ExpressionBody.context (ExpressionBody.nodeAt 6)
                   (ExpressionBody.nodeAt 4)
                 = Some ("for (" +:+ keyword +:+ " "
                         +:+ "[" +:+ getText (getSourceCode ExpressionBody.context) index
                         +:+ ", "
                         +:+ getText (getSourceCode ExpressionBody.context) element
                         +:+ "]"
                         +:+ " of " +:+ arrayText +:+ ".entries()" +:+ ") "))).
Proof.
  apply (loop_head_text_of_fixable_call_site (Sample.imports ExpressionBody.resolve)
           ExpressionBody.context (ExpressionBody.nodeAt 2) Sample.globalScope
           (functionInfo ExpressionBody.state) (allIdentifiers ExpressionBody.state)
           (ExpressionBody.nodeAt 6) (ExpressionBody.nodeAt 4)).
  - vm_compute. reflexivity.
  - vm_compute. reflexivity.
  - intros variable reference Hvariable Hreference.
    vm_compute in Hvariable. destruct Hvariable as [<-|[<-|[]]];
      vm_compute in Hreference; destruct Hreference as [<-|[]];
      vm_compute; eexists; reflexivity.
Defined.
